(** * The fixed-timestep simulation core of [GroupAssignment/group.js]

    [Body] and [Simulation] are embedded shallowly.  A JavaScript [Number] is
    read as an exact rational ([Q]), and equality of numbers is [Qeq]; [NaN]
    and the infinities of IEEE arithmetic are outside this reading.  Where a
    property depends on the rounding of the code's arithmetic, that
    arithmetic is transcribed a second time over the binary64 numbers of the
    code (module [Binary64]) and evaluated there.  JavaScript objects that
    are compared by identity ([Body]) live in an object store and are named
    by references. *)

Set Warnings "-inexact-float".
From Stdlib Require Import QArith Qabs Qminmax Qround Lqa Lia ZArith List String Bool.
From Stdlib Require Import PrimFloat.
From stdpp Require Import base option list gmap.

Local Open Scope Q_scope.

(** ** Numbers *)

Module JS.
(** [Math.sign]: 1, 0 or -1 according to the sign of the argument. *)
Definition Math_sign (x : Q) : Q := inject_Z (Z.sgn (Qnum x)).

(** [Math.abs] and [Math.min]. *)
Definition Math_abs (x : Q) : Q := Qabs x.
Definition Math_min (x y : Q) : Q := Qmin x y.

(** The comparisons [x >= y], [x <= y] and [x < y]. *)
Definition ge (x y : Q) : bool := Qle_bool y x.
Definition le (x y : Q) : bool := Qle_bool x y.
Definition lt (x y : Q) : bool := negb (Qle_bool y x).
End JS.

(** What a call can do: return normally, propagate a thrown exception, or
    still be running when the fuel of the model is used up. *)
Inductive outcome (A : Type) : Type :=
  | Normal (a : A)
  | Thrown (msg : string)
  | OutOfFuel.
Arguments Normal {A} a.
Arguments Thrown {A} msg.
Arguments OutOfFuel {A}.

(** Sequencing: an exception or the exhaustion of the fuel ends the call. *)
Global Instance outcome_bind : MBind outcome := fun A B k m =>
  match m with
  | Normal a => k a
  | Thrown e => Thrown e
  | OutOfFuel => OutOfFuel
  end.

(** ** The vector and matrix library

    [Vector3], [Vector4] and [Mat4] come from the scene's graphics library
    ([tiny], which [group.js] imports from [./examples/common.js]). *)

Module Tiny.

Record Vector3 : Type := vec3 { x3 : Q; y3 : Q; z3 : Q }.
Record Vector4 : Type := vec4 { x4 : Q; y4 : Q; z4 : Q; w4 : Q }.
Record Mat4 : Type := mat4 { row0 : Vector4; row1 : Vector4; row2 : Vector4; row3 : Vector4 }.

(** Modelled from the spec: [Vector3.plus] of the graphics library, the
    componentwise sum used in [center + linear_velocity * dt]. *)
Definition plus (a b : Vector3) : Vector3 :=
  vec3 (x3 a + x3 b) (y3 a + y3 b) (z3 a + z3 b).

(** Modelled from the spec: [Vector3.times] of the graphics library, the
    product of a vector with a scalar. *)
Definition times (a : Vector3) (s : Q) : Vector3 :=
  vec3 (x3 a * s) (y3 a * s) (z3 a * s).

(** Modelled from the spec: [Vector3.mix] of the graphics library, the
    linear interpolation [lerp(a, b, s)]. *)
Definition mix (a b : Vector3) (s : Q) : Vector3 :=
  vec3 ((1 - s) * x3 a + s * x3 b)
       ((1 - s) * y3 a + s * y3 b)
       ((1 - s) * z3 a + s * z3 b).

(** Modelled from the spec: [Vector4.mix] of the graphics library, the
    linear blend of two matrix rows. *)
Definition mix4 (a b : Vector4) (s : Q) : Vector4 :=
  vec4 ((1 - s) * x4 a + s * x4 b)
       ((1 - s) * y4 a + s * y4 b)
       ((1 - s) * z4 a + s * z4 b)
       ((1 - s) * w4 a + s * w4 b).

(** Modelled from the spec: [Vector3.dot] of the graphics library, the
    inner product [p . p] of the sphere test. *)
Definition dot (a b : Vector3) : Q := x3 a * x3 b + y3 a * y3 b + z3 a * z3 b.

(** Modelled from the spec: [Vector4.dot] of the graphics library. *)
Definition dot4 (a b : Vector4) : Q :=
  x4 a * x4 b + y4 a * y4 b + z4 a * z4 b + w4 a * w4 b.

(** Modelled from the spec: [to4] and [to3] of the graphics library, to
    homogeneous coordinates and back. *)
Definition to4 (p : Vector3) (is_a_point : Q) : Vector4 :=
  vec4 (x3 p) (y3 p) (z3 p) is_a_point.
Definition to3 (v : Vector4) : Vector3 := vec3 (x4 v) (y4 v) (z4 v).

(** [every] and the spread of a vector range over its components. *)
Definition components (p : Vector3) : list Q := [x3 p; y3 p; z3 p].
Definition every (f : Q -> bool) (p : Vector3) : bool := forallb f (components p).

(** Modelled from the spec: [Mat4.identity], [Mat4.translation] and
    [Mat4.scale] of the graphics library, the homogeneous 4x4 matrices of
    [translate(..)] and [scale(size)]. *)
Definition identity : Mat4 :=
  mat4 (vec4 1 0 0 0) (vec4 0 1 0 0) (vec4 0 0 1 0) (vec4 0 0 0 1).
Definition translation (x y z : Q) : Mat4 :=
  mat4 (vec4 1 0 0 x) (vec4 0 1 0 y) (vec4 0 0 1 z) (vec4 0 0 0 1).
Definition scale (x y z : Q) : Mat4 :=
  mat4 (vec4 x 0 0 0) (vec4 0 y 0 0) (vec4 0 0 z 0) (vec4 0 0 0 1).

Definition col0 (m : Mat4) : Vector4 := vec4 (x4 (row0 m)) (x4 (row1 m)) (x4 (row2 m)) (x4 (row3 m)).
Definition col1 (m : Mat4) : Vector4 := vec4 (y4 (row0 m)) (y4 (row1 m)) (y4 (row2 m)) (y4 (row3 m)).
Definition col2 (m : Mat4) : Vector4 := vec4 (z4 (row0 m)) (z4 (row1 m)) (z4 (row2 m)) (z4 (row3 m)).
Definition col3 (m : Mat4) : Vector4 := vec4 (w4 (row0 m)) (w4 (row1 m)) (w4 (row2 m)) (w4 (row3 m)).

(** Modelled from the spec: [Matrix.times] of the graphics library at a
    matrix argument, the matrix product written with a dot in the spec. *)
Definition row_times (r : Vector4) (b : Mat4) : Vector4 :=
  vec4 (dot4 r (col0 b)) (dot4 r (col1 b)) (dot4 r (col2 b)) (dot4 r (col3 b)).
Definition mtimes (a b : Mat4) : Mat4 :=
  mat4 (row_times (row0 a) b) (row_times (row1 a) b)
       (row_times (row2 a) b) (row_times (row3 a) b).

(** Modelled from the spec: [Matrix.times] of the graphics library at a
    vector argument, the image [T . p] of a homogeneous point. *)
Definition mtimes_vec (a : Mat4) (v : Vector4) : Vector4 :=
  vec4 (dot4 v (row0 a)) (dot4 v (row1 a)) (dot4 v (row2 a)) (dot4 v (row3 a)).

(** [Matrix.map] with the row index passed to the callback. *)
Definition map_rows (f : Vector4 -> nat -> Vector4) (m : Mat4) : Mat4 :=
  mat4 (f (row0 m) 0%nat) (f (row1 m) 1%nat) (f (row2 m) 2%nat) (f (row3 m) 3%nat).
Definition row (m : Mat4) (i : nat) : Vector4 :=
  match i with
  | 0%nat => row0 m
  | 1%nat => row1 m
  | 2%nat => row2 m
  | _ => row3 m
  end.

(** Equality of vectors and matrices up to [Qeq] on the entries. *)
Definition veq (a b : Vector3) : Prop := x3 a == x3 b /\ y3 a == y3 b /\ z3 a == z3 b.
Definition veq4 (a b : Vector4) : Prop :=
  x4 a == x4 b /\ y4 a == y4 b /\ z4 a == z4 b /\ w4 a == w4 b.
Definition meq (a b : Mat4) : Prop :=
  veq4 (row0 a) (row0 b) /\ veq4 (row1 a) (row1 b) /\
  veq4 (row2 a) (row2 b) /\ veq4 (row3 a) (row3 b).

(** The part of the graphics library that is kept abstract: the rotation
    about an axis (it needs sine and cosine) and the matrix inverse. *)
Class Library : Type := {
  rotation : Q -> Q -> Q -> Q -> Mat4;
  inverse : Mat4 -> Mat4
}.

End Tiny.

Import Tiny.

(** [f(...v)]: a vector spread over three arguments. *)
Definition spread {A : Type} (f : Q -> Q -> Q -> A) (v : Vector3) : A :=
  f (x3 v) (y3 v) (z3 v).

(** ** Body *)

(** The object [{center, rotation}] kept in [previous]. *)
Record Previous : Type := mkPrevious {
  p_center : Vector3;
  p_rotation : Mat4
}.

(** An emplaced [Body].  The drawable [shape] and the [material] are handed
    to the renderer untouched and are left out.  [inverse] is [None] until
    [update_state] caches it. *)
Record Body : Type := mkBody {
  size : Vector3;
  user_projectile : bool;
  hit : bool;
  center : Vector3;
  rotation : Mat4;
  previous : Previous;
  drawn_location : Mat4;
  temp_matrix : Mat4;
  linear_velocity : Vector3;
  angular_velocity : Q;
  spin_axis : Vector3;
  inverse : option Mat4
}.

Definition set_motion (b : Body) (prev : Previous) (c : Vector3) (r : Mat4) : Body :=
  mkBody (size b) (user_projectile b) (hit b) c r prev (drawn_location b)
         (temp_matrix b) (linear_velocity b) (angular_velocity b) (spin_axis b) (inverse b).

Definition set_drawn_location (b : Body) (m : Mat4) : Body :=
  mkBody (size b) (user_projectile b) (hit b) (center b) (rotation b) (previous b) m
         (temp_matrix b) (linear_velocity b) (angular_velocity b) (spin_axis b) (inverse b).

Definition set_temp_matrix (b : Body) (m : Mat4) : Body :=
  mkBody (size b) (user_projectile b) (hit b) (center b) (rotation b) (previous b)
         (drawn_location b) m (linear_velocity b) (angular_velocity b) (spin_axis b) (inverse b).

Definition set_inverse (b : Body) (m : Mat4) : Body :=
  mkBody (size b) (user_projectile b) (hit b) (center b) (rotation b) (previous b)
         (drawn_location b) (temp_matrix b) (linear_velocity b) (angular_velocity b)
         (spin_axis b) (Some m).

Definition set_linear_velocity (b : Body) (v : Vector3) : Body :=
  mkBody (size b) (user_projectile b) (hit b) (center b) (rotation b) (previous b)
         (drawn_location b) (temp_matrix b) v (angular_velocity b) (spin_axis b) (inverse b).

(** [static intersect_cube(p, margin = 0)] *)
Definition intersect_cube (p : Vector3) (margin : Q) : bool :=
  every (fun value => JS.ge value (-1 - margin) && JS.le value (1 + margin)) p.

(** [static intersect_sphere(p, margin = 0)] *)
Definition intersect_sphere (p : Vector3) (margin : Q) : bool :=
  JS.lt (dot p p) (1 + margin).

(** [new Body(shape, material, size, user_projectile).emplace(location_matrix,
    linear_velocity, angular_velocity, spin_axis)]: the constructor followed
    by [emplace], with the spin axis given. *)
Definition emplace (size : Vector3) (user_projectile : bool) (location_matrix : Mat4)
    (linear_velocity : Vector3) (angular_velocity : Q) (spin_axis : Vector3) : Body :=
  let center := to3 (mtimes_vec location_matrix (vec4 0 0 0 1)) in
  let rotation := mtimes (spread translation (times center (-1))) location_matrix in
  mkBody size user_projectile false center rotation (mkPrevious center rotation)
         location_matrix identity linear_velocity angular_velocity spin_axis None.

Section BodyMethods.
Context {lib : Library}.

(** [advance(time_amount)] *)
Definition advance (time_amount : Q) (this : Body) : Body :=
  let prev := mkPrevious (center this) (rotation this) in
  let c := plus (center this) (times (linear_velocity this) time_amount) in
  let r := mtimes (spread (Tiny.rotation (time_amount * angular_velocity this)) (spin_axis this))
                  (rotation this) in
  set_motion this prev c r.

(** [blend_rotation(alpha)] *)
Definition blend_rotation (alpha : Q) (this : Body) : Mat4 :=
  map_rows (fun x i => mix4 (row (p_rotation (previous this)) i) x alpha) (rotation this).

(** [blend_state(alpha)] *)
Definition blend_state (alpha : Q) (this : Body) : Body :=
  set_drawn_location this
    (mtimes (mtimes (spread translation (mix (p_center (previous this)) (center this) alpha))
                    (blend_rotation alpha this))
            (spread scale (size this))).
End BodyMethods.

(** References to [Body] objects, and the store that holds the objects. *)
Definition ref : Type := nat.
Abbreviation store := (gmap nat Body).

(** A collider descriptor [{intersect_test, points, leeway}]; [points] stands
    for the positions [points.arrays.position] of the sample shape. *)
Record Collider : Type := mkCollider {
  intersect_test : Vector3 -> Q -> bool;
  points : list Vector3;
  leeway : Q
}.

(** [this.check_if_colliding(b, collider)], with [this] and [b] given by
    reference.  The product is written into [this.temp_matrix], so the store
    is returned with the answer; reading the [inverse] of a body that has none
    is a [TypeError]. *)
Definition check_if_colliding (h : store) (this b : ref) (collider : Collider)
    : outcome (bool * store) :=
  if decide (this = b) then Normal (false, h)
  else
    match h !! this, h !! b with
    | Some a, Some other =>
        match inverse a with
        | Some a_inv =>
            let T := mtimes a_inv (mtimes (drawn_location other) (scale 1 1.5 1)) in
            Normal (existsb (fun p => intersect_test collider (to3 (mtimes_vec T (to4 p 1)))
                                                     (leeway collider))
                            (points collider),
                    <[this := set_temp_matrix a T]> h)
        | None => Thrown "TypeError"
        end
    | _, _ => Thrown "TypeError"
    end.

(** ** Simulation *)

(** The fields of a [Simulation], together with the store of the [Body]
    objects that the scene refers to; [bodies] is an array of references. *)
Record Simulation : Type := mkSimulation {
  heap : store;
  time_accumulator : Q;
  time_scale : Q;
  t : Q;
  dt : Q;
  bodies : list ref;
  steps_taken : Z
}.

(** [constructor()], in a store [h]. *)
Definition constructor (h : store) : Simulation :=
  mkSimulation h 0 1 0 (1 / 20) [] 0.

Definition set_heap (s : Simulation) (h : store) : Simulation :=
  mkSimulation h (time_accumulator s) (time_scale s) (t s) (dt s) (bodies s) (steps_taken s).

Definition set_time_accumulator (s : Simulation) (a : Q) : Simulation :=
  mkSimulation (heap s) a (time_scale s) (t s) (dt s) (bodies s) (steps_taken s).

Definition set_time_scale (s : Simulation) (a : Q) : Simulation :=
  mkSimulation (heap s) (time_accumulator s) a (t s) (dt s) (bodies s) (steps_taken s).

Definition set_t (s : Simulation) (a : Q) : Simulation :=
  mkSimulation (heap s) (time_accumulator s) (time_scale s) a (dt s) (bodies s) (steps_taken s).

Definition set_bodies (s : Simulation) (l : list ref) : Simulation :=
  mkSimulation (heap s) (time_accumulator s) (time_scale s) (t s) (dt s) l (steps_taken s).

Definition set_steps_taken (s : Simulation) (n : Z) : Simulation :=
  mkSimulation (heap s) (time_accumulator s) (time_scale s) (t s) (dt s) (bodies s) n.

(** The method that a subclass of [Simulation] overrides. *)
Class Methods : Type := {
  update_state : Q -> Simulation -> outcome Simulation
}.

(** [Simulation.prototype.update_state]: the abstract method of the base class. *)
Definition Simulation_update_state (dt : Q) (s : Simulation) : outcome Simulation :=
  Thrown "Override this".

Definition Simulation_prototype : Methods :=
  {| update_state := Simulation_update_state |}.

(** [for (let b of this.bodies) b.m()]: the method [m] applied, in order, to
    the object behind each reference of the array. *)
Definition for_bodies (m : Body -> Body) (s : Simulation) : Simulation :=
  set_heap s (foldl (fun h r => alter m r h) (heap s) (bodies s)).

Section SimulationMethods.
Context {lib : Library} {methods : Methods}.

(** One pass through the body of the [while] loop of [simulate]. *)
Definition fixed_step (frame_time : Q) (s : Simulation) : outcome Simulation :=
  s ← update_state (dt s) s;
  let s := for_bodies (advance (dt s)) s in
  let s := set_t s (t s + JS.Math_sign frame_time * dt s) in
  let s := set_time_accumulator s (time_accumulator s - JS.Math_sign frame_time * dt s) in
  Normal (set_steps_taken s (steps_taken s + 1)%Z).

(** The [while] loop of [simulate]; [frame_time] is the scaled frame time. *)
Fixpoint simulate_loop (fuel : nat) (frame_time : Q) (s : Simulation) : outcome Simulation :=
  match fuel with
  | O => OutOfFuel
  | S fuel =>
      if JS.ge (JS.Math_abs (time_accumulator s)) (dt s) then
        s ← fixed_step frame_time s;
        simulate_loop fuel frame_time s
      else Normal s
  end.

(** The first two statements of [simulate]: the frame time is scaled, then
    clamped from above and added to the accumulator. *)
Definition scaled (frame_time : Q) (s : Simulation) : Q := time_scale s * frame_time.
Definition accumulate (frame_time : Q) (s : Simulation) : Simulation :=
  set_time_accumulator s (time_accumulator s + JS.Math_min frame_time 0.1).

(** The interpolation factor [alpha] and the blending that end [simulate]. *)
Definition alpha (s : Simulation) : Q := time_accumulator s / dt s.
Definition blend_bodies (s : Simulation) : Simulation :=
  for_bodies (blend_state (alpha s)) s.

(** [simulate(frame_time)] *)
Definition simulate (fuel : nat) (frame_time : Q) (s : Simulation) : outcome Simulation :=
  let frame_time := scaled frame_time s in
  let s := accumulate frame_time s in
  s ← simulate_loop fuel frame_time s;
  Normal (blend_bodies s).

(** A sequence of calls of [simulate], one per frame. *)
Fixpoint simulate_frames (fuel : nat) (frame_times : list Q) (s : Simulation)
    : outcome Simulation :=
  match frame_times with
  | [] => Normal s
  | frame_time :: rest =>
      s ← simulate fuel frame_time s;
      simulate_frames fuel rest s
  end.
End SimulationMethods.

(** ** What is assumed of an overriding [update_state] *)

(** An overriding [update_state] returns or throws, and leaves the time
    keeping of the [Simulation] alone: those fields are written by
    [simulate] only. *)
Record hook_ok {methods : Methods} : Prop := {
  hook_terminates : forall d s, update_state d s <> OutOfFuel;
  hook_time_accumulator :
    forall d s s', update_state d s = Normal s' -> time_accumulator s' = time_accumulator s;
  hook_dt : forall d s s', update_state d s = Normal s' -> dt s' = dt s;
  hook_time_scale : forall d s s', update_state d s = Normal s' -> time_scale s' = time_scale s;
  hook_t : forall d s s', update_state d s = Normal s' -> t s' = t s;
  hook_steps_taken :
    forall d s s', update_state d s = Normal s' -> steps_taken s' = steps_taken s
}.

(** An [update_state] that never throws. *)
Definition hook_total {methods : Methods} : Prop :=
  forall d s, exists s', update_state d s = Normal s'.

(** A call, given as a function of the fuel, terminates, and every state it
    returns satisfies [P]. *)
Definition returns_with {A : Type} (run : nat -> outcome A) (P : A -> Prop) : Prop :=
  (exists n, forall fuel, (n <= fuel)%nat -> run fuel <> OutOfFuel) /\
  (forall fuel a, run fuel = Normal a -> P a).


(** The sum of a list of frame times. *)
Definition total (frame_times : list Q) : Q := foldr Qplus 0 frame_times.

(** The state in which the display leaves each body of the scene after a
    frame that blends with [alpha]. *)
Definition blended_with (alpha : Q) (s : Simulation) : Prop :=
  forall r b, r ∈ bodies s -> heap s !! r = Some b ->
    meq (drawn_location b) (drawn_location (blend_state alpha b)).

(** The accumulator lies on the side of zero from which a frame of time
    [frame_time] steps towards zero. *)
Definition heading (frame_time : Q) (s : Simulation) : Prop :=
  (0 < frame_time -> - dt s < time_accumulator s) /\
  (frame_time < 0 -> time_accumulator s < dt s) /\
  (frame_time == 0 -> Qabs (time_accumulator s) < dt s).

(** What the [while] loop of [simulate] has done when it exits in [s'],
    entered in [s]: it took [k] fixed steps. *)
Definition loop_post (frame_time : Q) (s s' : Simulation) : Prop :=
  dt s' = dt s /\ time_scale s' = time_scale s /\
  Qabs (time_accumulator s') < dt s /\
  exists k : Z,
    (0 <= k)%Z /\ steps_taken s' = (steps_taken s + k)%Z /\
    time_accumulator s' ==
      time_accumulator s - JS.Math_sign frame_time * (inject_Z k * dt s) /\
    t s' == t s + JS.Math_sign frame_time * (inject_Z k * dt s) /\
    (k = 0%Z -> s' = s) /\
    (Qabs (time_accumulator s) < dt s -> k = 0%Z) /\
    ((0 < k)%Z -> 0 <= JS.Math_sign frame_time * time_accumulator s').

(** [n] fixed steps as one body sees them: before each [advance] the
    per-step hook may have written to the body; [hooks] lists what it did,
    step by step. *)
Fixpoint advance_steps {lib : Library} (hooks : list (Body -> Body)) (time_amount : Q)
    (b : Body) : Body :=
  match hooks with
  | [] => b
  | hook :: rest => advance_steps rest time_amount (advance time_amount (hook b))
  end.

(** The hook leaves the position and the velocity of a body alone. *)
Definition keeps_velocity (hook : Body -> Body) : Prop :=
  forall b, center (hook b) = center b /\ linear_velocity (hook b) = linear_velocity b.

(** [a.inverse = Mat4.inverse(a.drawn_location)], the caching statement of
    the scene's [update_state]. *)
Definition cache_inverse {lib : Library} (a : Body) : Body :=
  set_inverse a (Tiny.inverse (drawn_location a)).

(** The transform [T] of [check_if_colliding]. *)
Definition collision_frame {lib : Library} (a other : Body) : Mat4 :=
  mtimes (Tiny.inverse (drawn_location a)) (mtimes (drawn_location other) (scale 1 1.5 1)).

(** Between [s] and [s'] nothing has happened to the objects of the store
    but that the bodies of the scene were drawn anew, blended with [alpha]. *)
Definition redrawn_only (alpha : Q) (s s' : Simulation) : Prop :=
  forall r : ref,
    match heap s !! r with
    | None => heap s' !! r = None
    | Some b =>
        exists b', heap s' !! r = Some b' /\
          center b' = center b /\ rotation b' = rotation b /\ previous b' = previous b /\
          linear_velocity b' = linear_velocity b /\
          (r ∈ bodies s ->
           meq (drawn_location b') (drawn_location (blend_state alpha b))) /\
          (r ∉ bodies s -> b' = b)
    end.

(** ** A scene to compute with *)

(** A library for bodies that do not spin and are drawn by an axis-aligned
    scaling followed by a translation: the rotation by the angle 0 is the
    identity, and [inverse] inverts the matrices with rows [(sx 0 0 tx)],
    [(0 sy 0 ty)], [(0 0 sz tz)], [(0 0 0 1)]. *)
Definition still_library : Library := {|
  Tiny.rotation := fun _ _ _ _ => identity;
  Tiny.inverse := fun m =>
    let sx := x4 (row0 m) in let sy := y4 (row1 m) in let sz := z4 (row2 m) in
    mat4 (vec4 (1 / sx) 0 0 (- w4 (row0 m) / sx))
         (vec4 0 (1 / sy) 0 (- w4 (row1 m) / sy))
         (vec4 0 0 (1 / sz) (- w4 (row2 m) / sz))
         (vec4 0 0 0 1)
|}.

(** An [update_state] in the manner of the scene's: gravity pulls at every
    body of the scene. *)
Definition gravity (d : Q) (s : Simulation) : outcome Simulation :=
  Normal (for_bodies (fun a =>
    set_linear_velocity a (vec3 (x3 (linear_velocity a))
                                (y3 (linear_velocity a) + d * -4.9)
                                (z3 (linear_velocity a)))) s).

Definition falling : Methods := {| update_state := gravity |}.

(** A body of size 1 at the origin that moves along the first axis. *)
Definition glider : Body :=
  emplace (vec3 1 1 1) false (translation 0 0 0) (vec3 1 0 0) 0 (vec3 0 1 0).

(** A second body, at (3, 0, 0). *)
Definition rock : Body :=
  emplace (vec3 1 1 1) false (translation 3 0 0) (vec3 0 0 0) 0 (vec3 0 1 0).

(** A scene with the glider as its only simulated body. *)
Definition one_body : Simulation :=
  set_bodies (constructor (<[0%nat := glider]> ∅)) [0%nat].

(** The cube collider of the scene, [{intersect_test: Body.intersect_cube,
    points: new defs.Cube(), leeway: .1}], with the corners of the cube as
    its sample points. *)
Definition cube_collider : Collider :=
  mkCollider intersect_cube
    [vec3 (-1) (-1) (-1); vec3 1 (-1) (-1); vec3 (-1) 1 (-1); vec3 1 1 (-1);
     vec3 (-1) (-1) 1; vec3 1 (-1) 1; vec3 (-1) 1 1; vec3 1 1 1]
    0.1.

(** A store with the glider, its inverse cached, and the rock. *)
Definition two_bodies : store :=
  <[1%nat := rock]> (<[0%nat := cache_inverse (lib := still_library) glider]> ∅).

(** ** The time keeping and the integration in binary64

    The arithmetic of [simulate] and of [advance] once more, over the
    binary64 numbers that a JavaScript [Number] is, with the rounding of every
    operation.  These definitions are there to be evaluated: they show, on
    inputs, what the code computes where that differs from the exact
    reading above. *)

Module Binary64.
Local Open Scope float_scope.

(** [Math.sign]: 1 or -1 by the sign of the argument; a zero or [NaN] is
    returned as it is. *)
Definition Math_sign (x : float) : float :=
  if 0 <? x then 1 else if x <? 0 then -1 else x.

(** [Math.abs]. *)
Definition Math_abs (x : float) : float := abs x.

(** [Math.min] of two numbers: [NaN] if either is, and -0 below +0. *)
Definition Math_min (x y : float) : float :=
  if is_nan x then x else if is_nan y then y
  else if x <? y then x else if y <? x then y
  else if get_sign x then x else y.

(** The comparison [x >= y]. *)
Definition ge (x y : float) : bool := y <=? x.

Record Vector3 : Type := vec3 { x3 : float; y3 : float; z3 : float }.

(** Modelled from the spec: [Vector3.plus] and [Vector3.times] of the
    graphics library, componentwise, each operation rounded. *)
Definition plus (a b : Vector3) : Vector3 :=
  vec3 (x3 a + x3 b) (y3 a + y3 b) (z3 a + z3 b).
Definition times (a : Vector3) (s : float) : Vector3 :=
  vec3 (x3 a * s) (y3 a * s) (z3 a * s).

(** The position of a [Body]: its [center], the center kept in [previous],
    and its [linear_velocity].  The rotation and the matrices are left out. *)
Record Body : Type := mkBody {
  center : Vector3;
  previous_center : Vector3;
  linear_velocity : Vector3
}.

(** [advance(time_amount)], as far as the position goes. *)
Definition advance (time_amount : float) (this : Body) : Body :=
  mkBody (plus (center this) (times (linear_velocity this) time_amount))
         (center this) (linear_velocity this).

(** The fields of a [Simulation].  [steps_taken] counts in integers, which
    the increments of a [Number] do exactly below 2^53. *)
Record Simulation : Type := mkSimulation {
  time_accumulator : float;
  time_scale : float;
  t : float;
  dt : float;
  bodies : list Body;
  steps_taken : Z
}.

(** [constructor()], followed by the registration of [bodies]. *)
Definition constructor (bodies : list Body) : Simulation :=
  mkSimulation 0 1 0 (1 / 20) bodies 0.

Section SimulationMethods.
Variable update_state : float -> Simulation -> outcome Simulation.

(** One pass through the body of the [while] loop of [simulate]. *)
Definition fixed_step (frame_time : float) (s : Simulation) : outcome Simulation :=
  s ← update_state (dt s) s;
  Normal (mkSimulation (time_accumulator s - Math_sign frame_time * dt s)
                       (time_scale s)
                       (t s + Math_sign frame_time * dt s)
                       (dt s)
                       (map (advance (dt s)) (bodies s))
                       (steps_taken s + 1)%Z).

(** The [while] loop of [simulate]. *)
Fixpoint simulate_loop (fuel : nat) (frame_time : float) (s : Simulation)
    : outcome Simulation :=
  match fuel with
  | O => OutOfFuel
  | S fuel =>
      if ge (Math_abs (time_accumulator s)) (dt s) then
        s ← fixed_step frame_time s;
        simulate_loop fuel frame_time s
      else Normal s
  end.

(** [simulate(frame_time)].  The blending that ends it writes
    [drawn_location] only, which is not among the fields kept here. *)
Definition simulate (fuel : nat) (frame_time : float) (s : Simulation)
    : outcome Simulation :=
  let frame_time := time_scale s * frame_time in
  let s := mkSimulation (time_accumulator s + Math_min frame_time 0.1) (time_scale s)
                        (t s) (dt s) (bodies s) (steps_taken s) in
  simulate_loop fuel frame_time s.

(** The interpolation factor that [simulate] blends with. *)
Definition alpha (s : Simulation) : float := time_accumulator s / dt s.

(** A sequence of calls of [simulate], one per frame. *)
Fixpoint simulate_frames (fuel : nat) (frame_times : list float) (s : Simulation)
    : outcome Simulation :=
  match frame_times with
  | [] => Normal s
  | frame_time :: rest =>
      s ← simulate fuel frame_time s;
      simulate_frames fuel rest s
  end.
End SimulationMethods.

(** An [update_state] that applies no forces. *)
Definition no_forces (d : float) (s : Simulation) : outcome Simulation := Normal s.

(** A body at the origin that moves along the first axis, and the scene
    that holds it. *)
Definition glider : Body := mkBody (vec3 0 0 0) (vec3 0 0 0) (vec3 1 0 0).
Definition one_body : Simulation := constructor [glider].

(** The sum of a list of frame times, added up from the left. *)
Definition total (frame_times : list float) : float := foldl PrimFloat.add 0 frame_times.
End Binary64.

(** ** Integers and remainders *)

Module JSInt.
(** The integer part of a number, rounded towards zero. *)
Definition trunc (x : Q) : Z := Z.quot (Qnum x) (Zpos (Qden x)).

(** [~~x]: the integer part, wrapped into the signed 32-bit range. *)
Definition to_int32 (x : Q) : Z := ((trunc x + 2 ^ 31) mod 2 ^ 32 - 2 ^ 31)%Z.

(** [x % y], the remainder with the sign of the dividend, for [y] other
    than 0. *)
Definition rem (x y : Q) : Q := x - y * inject_Z (trunc (x / y)).
End JSInt.

(** ** The light of the control panel *)

Module Sun.
(** The fields [r], [g], [b] (the color of the light) and [x], [y], [z]
    (its position) that the buttons of the control panel write. *)
Record Light : Type := mkLight { r : Q; g : Q; b : Q; x : Q; y : Q; z : Q }.

(** "Change Light Color", with the three values that [Math.random()] yields. *)
Definition change_light_color (random1 random2 random3 : Q) (l : Light) : Light :=
  mkLight random1 random2 random3 (x l) (y l) (z l).

(** "Original Light Color" *)
Definition original_light_color (l : Light) : Light :=
  mkLight 0.917 0.792 0.949 (x l) (y l) (z l).

(** "Change Light Position", with the three values that [Math.random()] yields. *)
Definition change_light_position (random1 random2 random3 : Q) (l : Light) : Light :=
  mkLight (r l) (g l) (b l)
    (JSInt.rem (random1 * 100) 60 - 20)
    (JSInt.rem (random2 * 100) 40 - 10)
    (JSInt.rem (random3 * 100) 3 + 2).

(** "Original Light Position" *)
Definition original_light_position (l : Light) : Light :=
  mkLight (r l) (g l) (b l) 36 21 0.
End Sun.

(** ** Group *)

(** The fields of a [Group] that its methods read or write, on top of those
    of the [Simulation] it extends; [opm] and [pillars] are references to
    bodies of the store. *)
Record Group : Type := mkGroup {
  super : Simulation;
  colliders : list Collider;
  collider_selection : Z;
  opm : ref;
  pillars : ref;
  counter : Z
}.

Definition set_super (g : Group) (s : Simulation) : Group :=
  mkGroup s (colliders g) (collider_selection g) (opm g) (pillars g) (counter g).

Definition set_collider_selection (g : Group) (n : Z) : Group :=
  mkGroup (super g) (colliders g) n (opm g) (pillars g) (counter g).

Definition set_counter (g : Group) (n : Z) : Group :=
  mkGroup (super g) (colliders g) (collider_selection g) (opm g) (pillars g) n.

(** [random_shape(shape_list)], with the value that [Math.random()] yields;
    [shape_list] lists the shapes in the order of their keys. *)
Definition random_shape {A : Type} (shape_list : list A) (random : Q) : option A :=
  let i := JSInt.to_int32 (inject_Z (Z.of_nat (length shape_list)) * random) in
  if (i <? 0)%Z then None else shape_list !! Z.to_nat i.

(** [increase()] and [decrease()] *)
Definition increase (g : Group) : Group :=
  set_collider_selection g
    (Z.min (collider_selection g + 1) (Z.of_nat (length (colliders g)) - 1)).

Definition decrease (g : Group) : Group :=
  set_collider_selection g (Z.max (collider_selection g - 1) 0).

(** [this.colliders[this.collider_selection]], [None] for [undefined]. *)
Definition selected_collider (g : Group) : option Collider :=
  if (collider_selection g <? 0)%Z then None
  else colliders g !! Z.to_nat (collider_selection g).

Definition set_hit (b : Body) (v : bool) : Body :=
  mkBody (size b) (user_projectile b) v (center b) (rotation b) (previous b)
         (drawn_location b) (temp_matrix b) (linear_velocity b) (angular_velocity b)
         (spin_axis b) (inverse b).

(** What the random draws of a spawn yield: the value of [Math.random()] in
    the size, the vector [vec3(50, 25, 0).randomized(12)], the direction
    [vec3(0, -1, 0).randomized(2).normalized()], the value of
    [Math.random()] passed as angular velocity, and the default spin axis. *)
Record Draws : Type := mkDraws {
  size_draw : Q;
  place : Vector3;
  direction : Vector3;
  spin_draw : Q;
  axis : Vector3
}.

(** The body that [update_state] pushes on every eighth call. *)
Definition spawn (d : Draws) : Body :=
  emplace (vec3 1 (1 + size_draw d) 1) false (spread translation (place d))
          (times (direction d) 2) (spin_draw d) (axis d).

(** [a.check_if_colliding(b, collider)] with the collider that the scene has
    selected; past the test [this == b], an [undefined] collider is a
    [TypeError]. *)
Definition check_selected (h : store) (this b : ref) (collider : option Collider)
    : outcome (bool * store) :=
  if decide (this = b) then Normal (false, h)
  else
    match collider with
    | Some c => check_if_colliding h this b c
    | None => Thrown "TypeError"
    end.

(** A collision reverses and damps the velocity and marks the body as hit:
    [a.hit = true; a.linear_velocity = a.linear_velocity.times(factor)]. *)
Definition bounce (factor : Q) (a : Body) : Body :=
  set_linear_velocity (set_hit a true) (times (linear_velocity a) factor).

Section GroupMethods.
Context {lib : Library}.

(** The body of the loop [for (let a of this.bodies)] of [update_state],
    for the body behind the reference [r]. *)
Definition body_step (d : Q) (g : Group) (h : store) (r : ref) : outcome store :=
  match h !! r with
  | None => Thrown "TypeError"
  | Some a =>
      let a := set_inverse a (Tiny.inverse (drawn_location a)) in
      let v := linear_velocity a in
      if hit a then
        Normal (<[r := set_linear_velocity a
                         (vec3 (x3 v * 0.95) (y3 v + d * -9.8) (z3 v * 0.95))]> h)
      else
        let a := set_linear_velocity a
                   (if user_projectile a then vec3 (x3 v) (y3 v + d * -4.9) (z3 v)
                    else vec3 (x3 v + d * -9.8) (y3 v) (z3 v)) in
        '(colliding, h) ← check_selected (<[r := a]> h) r (opm g) (selected_collider g);
        if colliding : bool then Normal (alter (bounce (-0.45)) r h)
        else
          '(colliding, h) ← check_selected h r (pillars g) (selected_collider g);
          if colliding : bool then Normal (alter (bounce (-0.1)) r h)
          else Normal h
  end.

(** The loop over [this.bodies]. *)
Fixpoint for_each_body (d : Q) (g : Group) (h : store) (l : list ref) : outcome store :=
  match l with
  | [] => Normal h
  | r :: rest => h ← body_step d g h r; for_each_body d g h rest
  end.

(** The test of the filter that ends [update_state]:
    [b.center[0] > -50 && b.center[1] > -50]. *)
Definition in_bounds (h : store) (r : ref) : bool :=
  match h !! r with
  | Some b => JS.lt (-50) (x3 (center b)) && JS.lt (-50) (y3 (center b))
  | None => false
  end.

(** [update_state(dt)] of [Group], with the draws of a spawn. *)
Definition Group_update_state (d : Q) (draws : Draws) (g : Group) : outcome Group :=
  let g := set_counter g (counter g + 1) in
  let s := super g in
  let s :=
    if (Z.rem (counter g) 8 =? 0)%Z then
      let r := fresh (dom (heap s)) in
      set_bodies (set_heap s (<[r := spawn draws]> (heap s))) (bodies s ++ [r])
    else s in
  h ← for_each_body d g (heap s) (bodies s);
  Normal (set_super g (set_bodies (set_heap s h) (filter (fun r => in_bounds h r = true)
                                                         (bodies s)))).
End GroupMethods.

(** What [update_state] leaves of a body [a] in [a']: everything but the
    velocity, the cached inverse and the scratch matrix, and a body that is
    hit stays hit. *)
Definition kept (a a' : Body) : Prop :=
  size a' = size a /\ user_projectile a' = user_projectile a /\
  center a' = center a /\ rotation a' = rotation a /\ previous a' = previous a /\
  drawn_location a' = drawn_location a /\ angular_velocity a' = angular_velocity a /\
  spin_axis a' = spin_axis a /\ (hit a = true -> hit a' = true).

(** The cached inverse of a body is the inverse of its [drawn_location]. *)
Definition cached {lib : Library} (a : Body) : Prop :=
  inverse a = Some (Tiny.inverse (drawn_location a)).

(** The store [h'] holds the objects of [h], each as [update_state] may
    leave it. *)
Definition evolves {lib : Library} (h h' : store) : Prop :=
  forall r : ref,
    match h !! r with
    | None => True
    | Some a => exists a', h' !! r = Some a' /\ kept a a' /\ (cached a -> cached a')
    end.

(** The store [h'] holds the objects of [h] and no others, each as in
    [evolves]. *)
Definition settles {lib : Library} (h h' : store) : Prop :=
  evolves h h' /\ forall r : ref, h !! r = None -> h' !! r = None.

(** The references of the scene lead to objects, and a collider is selected. *)
Definition well_formed (g : Group) : Prop :=
  (forall r, r ∈ bodies (super g) -> is_Some (heap (super g) !! r)) /\
  is_Some (heap (super g) !! opm g) /\ is_Some (heap (super g) !! pillars g) /\
  is_Some (selected_collider g).

(** A scene of the kind [Group] builds: the glider is simulated, the rock
    stands where [opm] does, and the cube collider is selected. *)
Definition column : Body :=
  emplace (vec3 10 10 10) false (translation (-20) 0 (-10)) (vec3 0 0 0) 0 (vec3 0 1 0).

Definition small_group : Group :=
  mkGroup (set_bodies (constructor (<[2%nat := column]> two_bodies)) [0%nat])
          [cube_collider] 0 1%nat 2%nat 7.

Definition some_draws : Draws :=
  mkDraws 0.5 (vec3 50 25 0) (vec3 0 (-1) 0) 0.25 (vec3 0 1 0).

(** ** Arithmetic of the time keeping *)

Lemma Math_sign_pos (x : Q) : 0 < x -> JS.Math_sign x = 1.
Proof.
  destruct x as [n d]. unfold JS.Math_sign, Qlt. simpl. intros Hx.
  rewrite Z.sgn_pos by lia. reflexivity.
Qed.

Lemma Math_sign_neg (x : Q) : x < 0 -> JS.Math_sign x = -1.
Proof.
  destruct x as [n d]. unfold JS.Math_sign, Qlt. simpl. intros Hx.
  rewrite Z.sgn_neg by lia. reflexivity.
Qed.

Lemma Math_sign_zero (x : Q) : x == 0 -> JS.Math_sign x = 0.
Proof.
  destruct x as [n d]. unfold JS.Math_sign, Qeq. simpl. intros Hx.
  rewrite Z.sgn_null by lia. reflexivity.
Qed.

Lemma ge_true (x y : Q) : JS.ge x y = true <-> y <= x.
Proof. unfold JS.ge. apply Qle_bool_iff. Qed.

Lemma ge_false (x y : Q) : JS.ge x y = false <-> x < y.
Proof.
  unfold JS.ge. split; intros Hxy.
  - apply Qnot_le_lt. intros Hle. apply Qle_bool_iff in Hle. congruence.
  - destruct (Qle_bool y x) eqn:E; [|reflexivity].
    apply Qle_bool_iff in E. lra.
Qed.

Lemma le_true (x y : Q) : JS.le x y = true <-> x <= y.
Proof. unfold JS.le. apply Qle_bool_iff. Qed.

Lemma abs_lt (a d : Q) : Qabs a < d <-> - d < a /\ a < d.
Proof. apply Qabs_Qlt_condition. Qed.

Lemma abs_ge (a d : Q) : d <= Qabs a <-> a <= - d \/ d <= a.
Proof.
  split.
  - intros Hd. destruct (Qlt_le_dec a 0) as [Hneg | Hpos].
    + left. rewrite Qabs_neg in Hd by lra. lra.
    + right. rewrite Qabs_pos in Hd by lra. lra.
  - intros [Hneg | Hpos].
    + destruct (Qlt_le_dec a 0) as [Ha | Ha].
      * rewrite Qabs_neg by lra. lra.
      * rewrite Qabs_pos by lra. lra.
    + destruct (Qlt_le_dec a 0) as [Ha | Ha].
      * rewrite Qabs_neg by lra. lra.
      * rewrite Qabs_pos by lra. lra.
Qed.

Lemma min_clamp (x : Q) : JS.Math_min x 0.1 <= 0.1 /\ JS.Math_min x 0.1 <= x /\
  (x <= 0.1 -> JS.Math_min x 0.1 == x) /\ (0.1 <= x -> JS.Math_min x 0.1 == 0.1).
Proof.
  unfold JS.Math_min.
  destruct (Q.min_spec x 0.1) as [[Hlt Hmin] | [Hle Hmin]]; rewrite Hmin;
    repeat split; intros; lra.
Qed.

(** ** Fuel *)

Lemma bind_Normal {A B : Type} (m : outcome A) (k : A -> outcome B) (b : B) :
  m ≫= k = Normal b -> exists a, m = Normal a /\ k a = Normal b.
Proof. destruct m as [a | e | ]; simpl; intros Hm; try discriminate. eauto. Qed.



Lemma returns_with_weaken {A : Type} (run : nat -> outcome A) (P R : A -> Prop) :
  (forall a, P a -> R a) -> returns_with run P -> returns_with run R.
Proof. intros HPR [Hn HP]. split; [assumption|]. intros fuel a Ha. eauto. Qed.


(** ** The loop of [simulate] *)

Section Loop.
Context {lib : Library} {methods : Methods}.
Hypothesis hook : hook_ok.

Lemma fixed_step_fields (frame_time : Q) (s s1 : Simulation) :
  fixed_step frame_time s = Normal s1 ->
  dt s1 = dt s /\ time_scale s1 = time_scale s /\
  time_accumulator s1 = time_accumulator s - JS.Math_sign frame_time * dt s /\
  t s1 = t s + JS.Math_sign frame_time * dt s /\
  steps_taken s1 = (steps_taken s + 1)%Z.
Proof.
  unfold fixed_step. intros Hs. apply bind_Normal in Hs as (s0 & Hu & Hs).
  injection Hs as <-. simpl.
  rewrite (hook_dt hook _ _ _ Hu), (hook_time_scale hook _ _ _ Hu),
    (hook_time_accumulator hook _ _ _ Hu), (hook_t hook _ _ _ Hu),
    (hook_steps_taken hook _ _ _ Hu).
  repeat split; reflexivity.
Qed.

Lemma fixed_step_ends (frame_time : Q) (s : Simulation) :
  fixed_step frame_time s <> OutOfFuel.
Proof.
  unfold fixed_step. pose proof (hook_terminates hook (dt s) s) as Hu.
  destruct (update_state (dt s) s); simpl; congruence.
Qed.

Lemma heading_step (frame_time : Q) (s s1 : Simulation) :
  0 < dt s -> heading frame_time s -> dt s <= Qabs (time_accumulator s) ->
  dt s1 = dt s ->
  time_accumulator s1 = time_accumulator s - JS.Math_sign frame_time * dt s ->
  heading frame_time s1 /\
  Qabs (time_accumulator s1) == Qabs (time_accumulator s) - dt s /\
  0 <= JS.Math_sign frame_time * time_accumulator s1.
Proof.
  intros Hdt (Hpos & Hneg & Hzero) Hge Hdt1 Hacc. unfold heading.
  rewrite Hdt1, Hacc. apply abs_ge in Hge.
  destruct (Q_dec frame_time 0) as [[Hft | Hft] | Hft].
  - specialize (Hneg Hft). rewrite (Math_sign_neg _ Hft).
    assert (Ha : time_accumulator s <= - dt s) by (destruct Hge; lra).
    rewrite (Qabs_neg (time_accumulator s)) by lra.
    rewrite Qabs_neg by lra.
    repeat split; intros; lra.
  - specialize (Hpos Hft). rewrite (Math_sign_pos _ Hft).
    assert (Ha : dt s <= time_accumulator s) by (destruct Hge; lra).
    rewrite (Qabs_pos (time_accumulator s)) by lra.
    rewrite Qabs_pos by lra.
    repeat split; intros; lra.
  - specialize (Hzero Hft). apply abs_lt in Hzero. destruct Hge; lra.
Qed.

Lemma simulate_loop_post (frame_time : Q) (fuel : nat) :
  forall s s', 0 < dt s -> heading frame_time s ->
  simulate_loop fuel frame_time s = Normal s' -> loop_post frame_time s s'.
Proof.
  induction fuel as [| fuel IH]; intros s s' Hdt Hhead Hrun; [discriminate|].
  simpl in Hrun. destruct (JS.ge _ _) eqn:Hcond.
  - apply ge_true in Hcond. unfold JS.Math_abs in Hcond.
    apply bind_Normal in Hrun as (s1 & Hstep & Hrun).
    apply fixed_step_fields in Hstep as (Hdt1 & Hts1 & Hacc1 & Ht1 & Hst1).
    destruct (heading_step frame_time s s1 Hdt Hhead Hcond Hdt1 Hacc1)
      as (Hhead1 & Habs1 & Hside1).
    assert (Hdt1' : 0 < dt s1) by (rewrite Hdt1; exact Hdt).
    destruct (IH s1 s' Hdt1' Hhead1 Hrun)
      as (Hdt' & Hts' & Habs' & k & Hk & Hst' & Hacc' & Ht' & Hsame & Hnone & Hside').
    rewrite Hdt1 in *.
    repeat split; [congruence | congruence | assumption |].
    exists (k + 1)%Z. repeat split.
    + lia.
    + lia.
    + rewrite Hacc', Hacc1, inject_Z_plus. change (inject_Z 1) with 1. ring.
    + rewrite Ht', Ht1, inject_Z_plus. change (inject_Z 1) with 1. ring.
    + lia.
    + intros Hlt. exfalso. lra.
    + intros _. destruct (Z.eq_dec k 0%Z) as [Hk0 | Hk0].
      * rewrite (Hsame Hk0). exact Hside1.
      * apply Hside'. lia.
  - apply ge_false in Hcond. unfold JS.Math_abs in Hcond. injection Hrun as <-.
    repeat split; [assumption|]. exists 0%Z.
    repeat split; try reflexivity; try lia.
    + change (inject_Z 0) with 0. ring.
    + change (inject_Z 0) with 0. ring.
Qed.

Lemma simulate_loop_ends (frame_time : Q) (n : nat) :
  forall s, 0 < dt s -> heading frame_time s ->
  Qabs (time_accumulator s) < inject_Z (Z.of_nat (S n)) * dt s ->
  forall fuel, (S n <= fuel)%nat -> simulate_loop fuel frame_time s <> OutOfFuel.
Proof.
  induction n as [| n IH]; intros s Hdt Hhead Hbound fuel Hfuel;
    (destruct fuel as [| fuel]; [lia|]); simpl;
    destruct (JS.ge _ _) eqn:Hcond; try discriminate.
  - apply ge_true in Hcond. unfold JS.Math_abs in Hcond.
    change (inject_Z (Z.of_nat 1)) with 1 in Hbound. lra.
  - apply ge_true in Hcond. unfold JS.Math_abs in Hcond.
    pose proof (fixed_step_ends frame_time s) as Hends.
    destruct (fixed_step frame_time s) as [s1 | e | ] eqn:Hstep; simpl;
      [| discriminate | congruence].
    apply fixed_step_fields in Hstep as (Hdt1 & Hts1 & Hacc1 & Ht1 & Hst1).
    destruct (heading_step frame_time s s1 Hdt Hhead Hcond Hdt1 Hacc1)
      as (Hhead1 & Habs1 & Hside1).
    apply IH; [rewrite Hdt1; exact Hdt | exact Hhead1 | | lia].
    rewrite Habs1, Hdt1.
    rewrite (Nat2Z.inj_succ (S n)), <- Z.add_1_r, inject_Z_plus in Hbound.
    change (inject_Z 1) with 1 in Hbound. lra.
Qed.

Lemma steps_bound (a d : Q) :
  0 < d -> exists n : nat, Qabs a < inject_Z (Z.of_nat (S n)) * d.
Proof.
  intros Hd. exists (Z.to_nat (Qfloor (Qabs a / d))).
  assert (Hq : 0 <= Qabs a / d).
  { apply Qle_shift_div_l; [exact Hd|]. pose proof (Qabs_nonneg a). lra. }
  assert (Hfl : (0 <= Qfloor (Qabs a / d))%Z).
  { rewrite <- (Qfloor_Z 0). apply Qfloor_resp_le. exact Hq. }
  rewrite Nat2Z.inj_succ, Z2Nat.id, <- Z.add_1_r by exact Hfl.
  pose proof (Qlt_floor (Qabs a / d)) as Hlt.
  apply (Qmult_lt_r _ _ d Hd) in Hlt.
  assert (Hmul : Qabs a / d * d == Qabs a) by (field; lra).
  rewrite Hmul in Hlt. exact Hlt.
Qed.


(** The loop, entered with the accumulator on the right side of zero,
    terminates, and on exit [loop_post] holds. *)
Lemma simulate_loop_spec (frame_time : Q) (s : Simulation) :
  0 < dt s -> heading frame_time s ->
  returns_with (fun fuel => simulate_loop fuel frame_time s) (loop_post frame_time s).
Proof.
  intros Hdt Hhead. split.
  - destruct (steps_bound (time_accumulator s) (dt s) Hdt) as [n Hn].
    exists (S n). intros fuel Hfuel.
    apply (simulate_loop_ends frame_time n s Hdt Hhead Hn fuel Hfuel).
  - intros fuel s' Hrun. apply (simulate_loop_post frame_time fuel s s' Hdt Hhead Hrun).
Qed.
End Loop.

(** ** Vectors, matrices and the store *)

Ltac entries :=
  cbv [meq veq4 veq blend_state blend_rotation set_drawn_location drawn_location
       mtimes mtimes_vec row_times dot4 dot col0 col1 col2 col3 map_rows mix4 mix
       plus times to3 to4 spread translation scale identity row
       row0 row1 row2 row3 x4 y4 z4 w4 x3 y3 z3];
  repeat split.

Lemma meq_refl (m : Mat4) : meq m m.
Proof. entries; reflexivity. Qed.

Lemma blend_state_alpha (a a' : Q) (b : Body) :
  a == a' -> meq (drawn_location (blend_state a b)) (drawn_location (blend_state a' b)).
Proof. intros Ha. entries; try rewrite Ha; reflexivity. Qed.

Lemma blend_state_twice (a : Q) (b : Body) :
  blend_state a (blend_state a b) = blend_state a b.
Proof. reflexivity. Qed.

Lemma foldl_alter_lookup (f : Body -> Body) (l : list ref) :
  (forall b, f (f b) = f b) ->
  forall (h : store) (r : ref),
    foldl (fun h r => alter f r h) h l !! r =
    if decide (r ∈ l) then f <$> h !! r else h !! r.
Proof.
  intros Hf. induction l as [| x l IH]; intros h r; simpl.
  - destruct (decide (r ∈ [])) as [Hin | _]; [|reflexivity].
    apply elem_of_nil in Hin. contradiction.
  - rewrite IH. destruct (decide (x = r)) as [-> | Hne].
    + rewrite lookup_alter_eq.
      destruct (decide (r ∈ r :: l)) as [_ | Hout]; [| exfalso; apply Hout; left].
      destruct (decide (r ∈ l)); destruct (h !! r); simpl; rewrite ?Hf; reflexivity.
    + rewrite lookup_alter_ne by exact Hne.
      destruct (decide (r ∈ l)) as [Hin | Hout];
        destruct (decide (r ∈ x :: l)) as [Hin' | Hout']; try reflexivity.
      * exfalso. apply Hout'. right. exact Hin.
      * exfalso. apply elem_of_cons in Hin' as [-> | Hin']; [apply Hne; reflexivity|].
        apply Hout. exact Hin'.
Qed.

Lemma blend_bodies_lookup (s : Simulation) (r : ref) :
  heap (blend_bodies s) !! r =
  if decide (r ∈ bodies s) then blend_state (alpha s) <$> heap s !! r else heap s !! r.
Proof.
  unfold blend_bodies, for_bodies. simpl.
  apply foldl_alter_lookup. intros b. apply blend_state_twice.
Qed.

Lemma blend_bodies_blended (a : Q) (s : Simulation) :
  alpha s == a -> blended_with a (blend_bodies s).
Proof.
  intros Ha r b Hin Hb. simpl in Hin.
  rewrite blend_bodies_lookup in Hb.
  destruct (decide (r ∈ bodies s)) as [_ | Hout]; [| contradiction].
  destruct (heap s !! r) as [b0 |]; simpl in Hb; [| discriminate].
  injection Hb as <-. apply (blend_state_alpha (alpha s) a b0 Ha).
Qed.

(** ** A frame *)

Section Frame.
Context {lib : Library} {methods : Methods}.
Hypothesis hook : hook_ok.

Lemma heading_accumulate (frame_time : Q) (s : Simulation) :
  Qabs (time_accumulator s) < dt s -> heading frame_time (accumulate frame_time s).
Proof.
  intros Habs. apply abs_lt in Habs as [Hlo Hhi].
  destruct (min_clamp frame_time) as (Hc & Hle & Hsmall & Hbig).
  unfold heading, accumulate.
  cbn [time_accumulator dt set_time_accumulator]. repeat split.
  - intros Hft. destruct (Qlt_le_dec frame_time 0.1) as [Hs | Hb].
    + rewrite Hsmall by lra. lra.
    + rewrite Hbig by lra. lra.
  - intros Hft. lra.
  - intros Hft. apply abs_lt. rewrite Hsmall by lra. lra.
Qed.


(** A frame from a state with less than a step in the accumulator: the
    loop runs to its exit, then the bodies are blended. *)
Lemma simulate_spec (frame_time : Q) (s : Simulation) :
  Qabs (time_accumulator s) < dt s ->
  returns_with (fun fuel => simulate fuel frame_time s)
    (fun s' => exists s1,
       loop_post (scaled frame_time s) (accumulate (scaled frame_time s) s) s1 /\
       s' = blend_bodies s1).
Proof.
  intros Habs.
  assert (Hdt : 0 < dt s) by (pose proof (Qabs_nonneg (time_accumulator s)); lra).
  destruct (simulate_loop_spec hook (scaled frame_time s)
              (accumulate (scaled frame_time s) s) Hdt
              (heading_accumulate _ s Habs)) as [Hends Hpost].
  split.
  - destruct Hends as [n Hn]. exists n. intros fuel Hfuel. unfold simulate.
    specialize (Hn fuel Hfuel).
    destruct (simulate_loop fuel _ _); simpl; congruence.
  - intros fuel s' Hrun. unfold simulate in Hrun.
    apply bind_Normal in Hrun as (s1 & Hloop & Hs'). injection Hs' as <-.
    exists s1. split; [| reflexivity]. apply (Hpost fuel s1 Hloop).
Qed.

End Frame.

Ltac fields :=
  cbn [blend_bodies for_bodies accumulate set_heap set_time_accumulator set_time_scale
       set_t set_bodies set_steps_taken constructor
       heap time_accumulator time_scale t dt bodies steps_taken] in *.

Lemma falling_ok : hook_ok (methods := falling).
Proof. split; simpl; unfold gravity; intros; try discriminate; simplify_eq; reflexivity. Qed.

Lemma falling_total : hook_total (methods := falling).
Proof. intros d s. eexists. reflexivity. Qed.

(** ** The accumulator *)

(** The loop is left by its guard only. *)
Lemma simulate_loop_exit {lib : Library} {methods : Methods} (frame_time : Q) (fuel : nat) :
  forall s s', simulate_loop fuel frame_time s = Normal s' ->
    Qabs (time_accumulator s') < dt s'.
Proof.
  induction fuel as [| fuel IH]; intros s s' Hrun; [discriminate |].
  cbn [simulate_loop] in Hrun.
  destruct (JS.ge (JS.Math_abs (time_accumulator s)) (dt s)) eqn:Hguard.
  - apply bind_Normal in Hrun as (s1 & _ & Hrest). exact (IH s1 s' Hrest).
  - injection Hrun as <-. apply ge_false in Hguard. exact Hguard.
Qed.

(** C1: whenever [simulate(frame_time)] returns, from whatever state it was
    called in and whatever the overriding [update_state] has done, the
    accumulator holds less than one step: [|time_accumulator| < dt].  And the
    call does end, by returning or by an exception of the hook, when it
    starts with [dt] = 0.05 and less than a step in the accumulator, the
    scaled frame time [time_scale * frame_time] is at least -0.1, and the
    hook returns or throws. *)
Theorem accumulator_invariant {lib : Library} {methods : Methods} (s : Simulation)
    (frame_time : Q) :
  (forall fuel s', simulate fuel frame_time s = Normal s' ->
     Qabs (time_accumulator s') < dt s') /\
  (hook_ok -> dt s == 0.05 -> Qabs (time_accumulator s) < dt s ->
   -0.1 <= scaled frame_time s ->
   exists n, forall fuel, (n <= fuel)%nat -> simulate fuel frame_time s <> OutOfFuel).
Proof.
  split.
  - intros fuel s' Hrun. unfold simulate in Hrun.
    apply bind_Normal in Hrun as (s1 & Hloop & Hs'). injection Hs' as <-.
    fields. exact (simulate_loop_exit _ fuel _ s1 Hloop).
  - intros hook _ Habs _. exact (proj1 (simulate_spec hook frame_time s Habs)).
Qed.

Lemma accumulator_invariant_witness :
  hook_ok (methods := falling) /\
  dt one_body == 0.05 /\ Qabs (time_accumulator one_body) < dt one_body /\
  -0.1 <= scaled (-0.08) one_body /\
  (forall fuel s',
     simulate (lib := still_library) (methods := falling) fuel (-0.08) one_body = Normal s' ->
     Qabs (time_accumulator s') < dt s') /\
  (exists n, forall fuel, (n <= fuel)%nat ->
     simulate (lib := still_library) (methods := falling) fuel (-0.08) one_body
       <> OutOfFuel).
Proof.
  split; [exact falling_ok |]. split; [reflexivity |]. split; [reflexivity |].
  split; [vm_compute; discriminate |].
  split.
  - apply (proj1 (accumulator_invariant (lib := still_library) (methods := falling)
                    one_body (-0.08))).
  - apply (proj2 (accumulator_invariant (lib := still_library) (methods := falling)
                    one_body (-0.08)));
      [exact falling_ok | reflexivity | reflexivity | vm_compute; discriminate].
Defined.

(** ** The number of fixed steps of a frame *)

(** C3, as stated, fails: the clamp [Math.min(frame_time, 0.1)] bounds the
    frame time from above only.  From the constructed state, with [dt] =
    1/20 and an empty accumulator, [simulate(-0.2)] takes 4 fixed steps, more
    than 0.1/dt = 2, in the exact reading and in binary64 alike. *)
Lemma steps_backwards_exceed_clamp :
  dt one_body == 0.05 /\ Qabs (time_accumulator one_body) < dt one_body /\
  match simulate (lib := still_library) (methods := falling) 5 (-0.2) one_body with
  | Normal s' =>
      steps_taken s' = (steps_taken one_body + 4)%Z /\
      ~ inject_Z (steps_taken s' - steps_taken one_body) <= 0.1 / dt one_body
  | _ => False
  end /\
  match Binary64.simulate Binary64.no_forces 5 (-0.2) Binary64.one_body with
  | Normal s' =>
      Binary64.steps_taken s' = (Binary64.steps_taken Binary64.one_body + 4)%Z /\
      (0.1 / Binary64.dt Binary64.one_body)%float = 2%float
  | _ => False
  end.
Proof.
  split; [reflexivity |]. split; [reflexivity |]. split.
  - vm_compute. split; [reflexivity |]. intros Hle. apply Hle. reflexivity.
  - vm_compute. split; reflexivity.
Qed.

(** C3, amended: from a state with [dt] = 0.05 and less than a step in the
    accumulator, a frame whose scaled time [time_scale * frame_time] is at
    least -0.1 takes at most 0.1/dt fixed steps. *)
Theorem steps_per_frame_bound {lib : Library} {methods : Methods} (hook : hook_ok)
    (s : Simulation) (frame_time : Q) :
  dt s == 0.05 -> Qabs (time_accumulator s) < dt s -> -0.1 <= scaled frame_time s ->
  returns_with (fun fuel => simulate fuel frame_time s)
    (fun s' => inject_Z (steps_taken s' - steps_taken s) <= 0.1 / dt s).
Proof.
  intros Hd Habs Hft.
  refine (returns_with_weaken _ _ _ _ (simulate_spec hook frame_time s Habs)).
  intros s' (s1 & (_ & _ & Habs1 & k & Hk & Hst & Hacc & _ & Hsame & Hnone & Hside) & ->).
  fields. rewrite Hst. replace (steps_taken s + k - steps_taken s)%Z with k by lia.
  assert (Hq : 0.1 / dt s == 2) by (rewrite Hd; reflexivity). rewrite Hq.
  destruct (Z.eq_dec k 0%Z) as [-> | Hk0]; [vm_compute; discriminate |].
  rewrite Hd in Habs. apply abs_lt in Habs.
  destruct (min_clamp (scaled frame_time s)) as (Hc & _ & Hsmall & _).
  rewrite Hd in Hacc, Hnone.
  assert (Hlt : inject_Z k < inject_Z 3).
  { change (inject_Z 3) with 3.
    destruct (Qlt_le_dec 0 (scaled frame_time s)) as [Hpos | Hle].
    - rewrite (Math_sign_pos _ Hpos) in Hacc, Hside.
      assert (Hside' : 0 <= 1 * time_accumulator s1) by (apply Hside; lia). lra.
    - destruct (Qlt_le_dec (scaled frame_time s) 0) as [Hneg | Hge].
      + rewrite (Math_sign_neg _ Hneg) in Hacc, Hside.
        assert (Hside' : 0 <= -1 * time_accumulator s1) by (apply Hside; lia).
        rewrite Hsmall in Hacc by lra. lra.
      + exfalso. apply Hk0, Hnone. apply abs_lt. rewrite Hsmall by lra. lra. }
  rewrite <- Zlt_Qlt in Hlt.
  assert (Hle : (k <= 2)%Z) by lia.
  rewrite Zle_Qle in Hle. exact Hle.
Qed.

Lemma steps_per_frame_bound_witness :
  hook_ok (methods := falling) /\
  dt one_body == 0.05 /\ Qabs (time_accumulator one_body) < dt one_body /\
  -0.1 <= scaled (-0.1) one_body /\
  returns_with (fun fuel => simulate (lib := still_library) (methods := falling)
                              fuel (-0.1) one_body)
    (fun s' => inject_Z (steps_taken s' - steps_taken one_body) <= 0.1 / dt one_body).
Proof.
  split; [exact falling_ok |]. split; [reflexivity |]. split; [reflexivity |].
  split; [vm_compute; discriminate |].
  apply (steps_per_frame_bound falling_ok one_body (-0.1));
    [reflexivity | reflexivity | vm_compute; discriminate].
Defined.

(** ** The frame of 0.12 seconds *)

(** C2, as stated, fails: the frame time 0.12 is clamped to 0.1 before it
    reaches the accumulator, so after the two fixed steps nothing is left
    over: the accumulator is 0, not 0.02, and [alpha] is 0, not 0.4. *)
Lemma frame_0_12_is_clamped :
  dt one_body == 0.05 /\ time_scale one_body == 1 /\ time_accumulator one_body == 0 /\
  ~ time_accumulator (accumulate (scaled 0.12 one_body) one_body) == 0.12 /\
  match simulate (lib := still_library) (methods := falling) 3 0.12 one_body with
  | Normal s' =>
      steps_taken s' = (steps_taken one_body + 2)%Z /\
      ~ time_accumulator s' == 0.02 /\ ~ alpha s' == 0.4
  | _ => False
  end.
Proof.
  repeat (split; [reflexivity |]).
  split; [vm_compute; discriminate |].
  vm_compute. repeat split; discriminate.
Qed.

(** C2, amended: with [dt] = 0.05 and [time_scale] = 1, [simulate(0.12)]
    from an empty accumulator raises the accumulator to 0.1, the clamped
    frame time, takes exactly two fixed steps, leaves 0 in the accumulator,
    and blends every body of the scene with [alpha] = 0. *)
Theorem frame_0_12 {lib : Library} {methods : Methods} (hook : hook_ok) (s : Simulation) :
  dt s == 0.05 -> time_scale s == 1 -> time_accumulator s == 0 ->
  time_accumulator (accumulate (scaled 0.12 s) s) == 0.1 /\
  returns_with (fun fuel => simulate fuel 0.12 s)
    (fun s' => steps_taken s' = (steps_taken s + 2)%Z /\
               time_accumulator s' == 0 /\ alpha s' == 0 /\ blended_with 0 s').
Proof.
  intros Hdt Hts Hacc.
  assert (Hft : scaled 0.12 s == 0.12) by (unfold scaled; rewrite Hts; ring).
  destruct (min_clamp (scaled 0.12 s)) as (_ & _ & _ & Hbig).
  assert (Hmin : JS.Math_min (scaled 0.12 s) 0.1 == 0.1) by (apply Hbig; lra).
  assert (Hacc1 : time_accumulator (accumulate (scaled 0.12 s) s) == 0.1).
  { fields. rewrite Hmin, Hacc. reflexivity. }
  split; [exact Hacc1 |].
  assert (Habs : Qabs (time_accumulator s) < dt s) by (rewrite Hacc, Hdt; reflexivity).
  refine (returns_with_weaken _ _ _ _ (simulate_spec hook 0.12 s Habs)).
  intros s' (s1 & (Hdt1 & _ & Habs1 & k & Hk & Hst & Hacc' & _ & Hsame & _ & Hside) & ->).
  rewrite Hacc1 in Hacc'. fields. rewrite Hdt in Habs1, Hacc'.
  rewrite (Math_sign_pos (scaled 0.12 s)) in Hacc', Hside by lra.
  apply abs_lt in Habs1.
  assert (Hk0 : k <> 0%Z).
  { intros Hz. rewrite (Hsame Hz) in Habs1. fields. rewrite Hmin, Hacc in Habs1. lra. }
  assert (Hside' : 0 <= 1 * time_accumulator s1) by (apply Hside; lia).
  assert (Hlo : inject_Z 1 < inject_Z k) by (change (inject_Z 1) with 1; lra).
  assert (Hhi : inject_Z k <= inject_Z 2) by (change (inject_Z 2) with 2; lra).
  rewrite <- Zlt_Qlt in Hlo. rewrite <- Zle_Qle in Hhi.
  assert (Hk2 : k = 2%Z) by lia. subst k. change (inject_Z 2) with 2 in Hacc'.
  assert (Hzero : time_accumulator s1 == 0) by lra.
  assert (Halpha : alpha s1 == 0).
  { unfold alpha. rewrite Hzero. unfold Qdiv. ring. }
  split; [exact Hst |]. split; [exact Hzero |]. split; [exact Halpha |].
  apply blend_bodies_blended. exact Halpha.
Qed.

Lemma frame_0_12_witness :
  hook_ok (methods := falling) /\
  dt one_body == 0.05 /\ time_scale one_body == 1 /\ time_accumulator one_body == 0 /\
  time_accumulator (accumulate (scaled 0.12 one_body) one_body) == 0.1 /\
  returns_with (fun fuel => simulate (lib := still_library) (methods := falling)
                              fuel 0.12 one_body)
    (fun s' => steps_taken s' = (steps_taken one_body + 2)%Z /\
               time_accumulator s' == 0 /\ alpha s' == 0 /\ blended_with 0 s').
Proof.
  split; [exact falling_ok |].
  repeat (split; [reflexivity |]).
  apply (frame_0_12 falling_ok one_body); reflexivity.
Defined.

(** ** Frames in sequence *)

Section Frames.
Context {lib : Library} {methods : Methods}.
Hypothesis hook : hook_ok.



End Frames.





(** ** Body: integration and blending *)

Lemma advance_steps_center {lib : Library} (hooks : list (Body -> Body)) (time_amount : Q) :
  Forall keeps_velocity hooks ->
  forall b,
    center (advance_steps hooks time_amount b)
      = Nat.iter (length hooks)
          (fun c => plus c (times (linear_velocity b) time_amount)) (center b) /\
    linear_velocity (advance_steps hooks time_amount b) = linear_velocity b.
Proof.
  induction 1 as [| hook rest Hhook Hrest IH]; intros b.
  - split; reflexivity.
  - cbn [advance_steps].
    destruct (IH (advance time_amount (hook b))) as [Hc Hv].
    destruct (Hhook b) as [Hc0 Hl0].
    assert (Hc1 : center (advance time_amount (hook b))
                  = plus (center b) (times (linear_velocity b) time_amount)).
    { unfold advance. cbn [center set_motion]. rewrite Hc0, Hl0. reflexivity. }
    assert (Hl1 : linear_velocity (advance time_amount (hook b)) = linear_velocity b).
    { unfold advance. cbn [linear_velocity set_motion]. exact Hl0. }
    rewrite Hc1, Hl1 in Hc. rewrite Hl1 in Hv.
    split; [| exact Hv]. rewrite Hc. cbn [length].
    rewrite Nat.iter_succ_r. reflexivity.
Qed.

(** C5, as stated, fails for the numbers of the code: every fixed step adds
    [linear_velocity * dt] to the center and rounds the sum.  Ten frames of
    0.1 s move the body that starts at (0,0,0) with velocity (1,0,0) through
    20 fixed steps, to 1.0000000000000002, while [center + n * dt *
    linear_velocity] is 1. *)
Lemma advance_rounds_every_step :
  match Binary64.simulate_frames Binary64.no_forces 3 (replicate 10 0.1%float)
          Binary64.one_body with
  | Normal s' =>
      Binary64.steps_taken s' = 20%Z /\
      map Binary64.center (Binary64.bodies s')
        = [Binary64.vec3 1.0000000000000002 0 0] /\
      Binary64.plus (Binary64.center Binary64.glider)
        (Binary64.times (Binary64.linear_velocity Binary64.glider)
                        (20 * Binary64.dt s')%float)
        = Binary64.vec3 1 0 0
  | _ => False
  end.
Proof. vm_compute. repeat split; reflexivity. Qed.

(** C5, amended: [advance(time_amount)] stores the center and the rotation
    it finds in [previous] and then moves the center by [linear_velocity *
    time_amount]; over [n] fixed steps in which the hook leaves position and
    velocity alone the center is what [n] successive additions of
    [linear_velocity * time_amount] make of the starting center, one
    addition per step; a body at (0,0,0) with velocity (1,0,0) gets
    [previous.center] = (0,0,0) and [center] = (0.1,0,0) from [advance(0.1)]. *)
Theorem advance_spec {lib : Library} (hooks : list (Body -> Body)) (time_amount : Q)
    (b : Body) :
  Forall keeps_velocity hooks ->
  (previous (advance time_amount b) = mkPrevious (center b) (rotation b) /\
   center (advance time_amount b)
     = plus (center b) (times (linear_velocity b) time_amount) /\
   rotation (advance time_amount b)
     = mtimes (Tiny.rotation (time_amount * angular_velocity b)
                 (x3 (spin_axis b)) (y3 (spin_axis b)) (z3 (spin_axis b)))
              (rotation b)) /\
  center (advance_steps hooks time_amount b)
    = Nat.iter (length hooks)
        (fun c => plus c (times (linear_velocity b) time_amount)) (center b) /\
  (center b = vec3 0 0 0 -> linear_velocity b = vec3 1 0 0 ->
   p_center (previous (advance 0.1 b)) = vec3 0 0 0 /\
   veq (center (advance 0.1 b)) (vec3 0.1 0 0)).
Proof.
  intros Hhooks. split; [repeat split |]. split.
  - apply (advance_steps_center hooks time_amount Hhooks b).
  - intros Hc Hv. unfold advance. cbn [previous center set_motion p_center].
    rewrite Hc, Hv. split; [reflexivity |]. entries; reflexivity.
Qed.

(** C6: [blend_state(alpha)] draws the body at [translation(lerp(
    previous.center, center, alpha)) * blend_rotation(alpha) * scale(size)],
    the translation by the three components of the interpolated center, the
    rotation with each row interpolated, the scaling by the three components
    of [size]; at [alpha] = 0 that is the transform of the previous state and
    at [alpha] = 1 the transform of the current state, entry by entry. *)
Theorem blend_state_spec (alpha : Q) (b : Body) :
  let p := previous b in
  let c := mix (p_center p) (center b) alpha in
  drawn_location (blend_state alpha b)
    = mtimes (mtimes (translation (x3 c) (y3 c) (z3 c))
                     (mat4 (mix4 (row0 (p_rotation p)) (row0 (rotation b)) alpha)
                           (mix4 (row1 (p_rotation p)) (row1 (rotation b)) alpha)
                           (mix4 (row2 (p_rotation p)) (row2 (rotation b)) alpha)
                           (mix4 (row3 (p_rotation p)) (row3 (rotation b)) alpha)))
             (scale (x3 (size b)) (y3 (size b)) (z3 (size b))) /\
  meq (drawn_location (blend_state 0 b))
      (mtimes (mtimes (translation (x3 (p_center p)) (y3 (p_center p)) (z3 (p_center p)))
                      (p_rotation p))
              (scale (x3 (size b)) (y3 (size b)) (z3 (size b)))) /\
  meq (drawn_location (blend_state 1 b))
      (mtimes (mtimes (translation (x3 (center b)) (y3 (center b)) (z3 (center b)))
                      (rotation b))
              (scale (x3 (size b)) (y3 (size b)) (z3 (size b)))) /\
  meq (blend_rotation 0 b) (p_rotation p) /\
  meq (blend_rotation 1 b) (rotation b).
Proof.
  cbv zeta. split; [reflexivity |]. repeat split; entries; ring.
Qed.

(** ** Body: intersection and collision *)


(** C8: [check_if_colliding(b, collider)] answers false when [b] is the
    receiver itself; otherwise, when the cached [inverse] of the receiver is
    the inverse of its [drawn_location], it answers true exactly when some
    sample point [p] of the collider passes [intersect_test(T * p, leeway)],
    for [T] = [inverse(drawn_location) * (b.drawn_location * scale(1, 1.5, 1))]. *)
Theorem check_if_colliding_spec {lib : Library} (h : store) (this b : ref)
    (collider : Collider) (a other : Body) :
  check_if_colliding h this this collider = Normal (false, h) /\
  (this <> b -> h !! this = Some a -> h !! b = Some other ->
   inverse a = Some (Tiny.inverse (drawn_location a)) ->
   exists (colliding : bool) (h' : store),
     check_if_colliding h this b collider = Normal (colliding, h') /\
     (colliding = true <->
      exists p, p ∈ points collider /\
        intersect_test collider
          (to3 (mtimes_vec (collision_frame a other) (to4 p 1))) (leeway collider) = true)).
Proof.
  split.
  - unfold check_if_colliding. destruct (decide (this = this)); [reflexivity | contradiction].
  - intros Hne Ha Hother Hinv. unfold check_if_colliding.
    destruct (decide (this = b)) as [Heq | _]; [contradiction |].
    rewrite Ha, Hother, Hinv. eexists _, _. split; [reflexivity |].
    unfold collision_frame. rewrite existsb_exists.
    split; intros (p & Hin & Hp); exists p; (split; [| exact Hp]);
      apply list_elem_of_In; exact Hin.
Qed.

Lemma check_if_colliding_spec_witness :
  (0 <> 1)%nat /\
  two_bodies !! 0%nat = Some (cache_inverse (lib := still_library) glider) /\
  two_bodies !! 1%nat = Some rock /\
  inverse (cache_inverse (lib := still_library) glider)
    = Some (Tiny.inverse (Library := still_library)
              (drawn_location (cache_inverse (lib := still_library) glider))) /\
  exists (colliding : bool) (h' : store),
    check_if_colliding two_bodies 0%nat 1%nat cube_collider = Normal (colliding, h') /\
    (colliding = true <->
     exists p, p ∈ points cube_collider /\
       intersect_test cube_collider
         (to3 (mtimes_vec (collision_frame (lib := still_library)
                             (cache_inverse (lib := still_library) glider) rock)
                          (to4 p 1)))
         (leeway cube_collider) = true).
Proof.
  split; [lia |]. split; [reflexivity |]. split; [reflexivity |]. split; [reflexivity |].
  apply (proj2 (check_if_colliding_spec (lib := still_library) two_bodies 0%nat 1%nat
                  cube_collider (cache_inverse (lib := still_library) glider) rock));
    [lia | reflexivity | reflexivity | reflexivity].
Defined.

(** ** The abstract [update_state] *)

(** C9: [update_state] of the base class throws, whatever its argument, and
    so does every frame of a [Simulation] without an override that enters
    the loop: no fixed step passes silently. *)
Theorem update_state_must_be_overridden {lib : Library} (d : Q) (fuel : nat)
    (frame_time : Q) (s : Simulation) :
  update_state (Methods := Simulation_prototype) d s = Thrown "Override this" /\
  (dt s <= Qabs (time_accumulator (accumulate (scaled frame_time s) s)) ->
   simulate (methods := Simulation_prototype) (S fuel) frame_time s
   = Thrown "Override this").
Proof.
  split; [reflexivity |]. intros Hge.
  unfold simulate. cbn [simulate_loop].
  assert (Hcond : JS.ge (JS.Math_abs (time_accumulator (accumulate (scaled frame_time s) s)))
                        (dt (accumulate (scaled frame_time s) s)) = true).
  { apply ge_true. exact Hge. }
  rewrite Hcond. reflexivity.
Qed.

Lemma update_state_must_be_overridden_witness :
  dt one_body <= Qabs (time_accumulator (accumulate (scaled 0.06 one_body) one_body)) /\
  simulate (lib := still_library) (methods := Simulation_prototype) 1 0.06 one_body
  = Thrown "Override this".
Proof.
  split; [vm_compute; discriminate |].
  apply (update_state_must_be_overridden (lib := still_library) 0 0 0.06 one_body).
  vm_compute. discriminate.
Defined.

(** ** A frame of no time *)

Lemma simulate_loop_spins {lib : Library} {methods : Methods} (hook : hook_ok)
    (Htotal : hook_total) (frame_time : Q) (fuel : nat) :
  frame_time == 0 ->
  forall s, dt s <= Qabs (time_accumulator s) ->
  simulate_loop fuel frame_time s = OutOfFuel.
Proof.
  intros Hft. induction fuel as [| fuel IH]; intros s Hge; [reflexivity |].
  cbn [simulate_loop].
  assert (Hcond : JS.ge (JS.Math_abs (time_accumulator s)) (dt s) = true)
    by (apply ge_true; exact Hge).
  rewrite Hcond.
  destruct (fixed_step frame_time s) as [s1 | e | ] eqn:Hstep; [| exfalso | reflexivity].
  - pose proof (fixed_step_fields hook frame_time s s1 Hstep) as (Hdt1 & _ & Hacc1 & _).
    simpl. apply IH. rewrite Hdt1, Hacc1, (Math_sign_zero _ Hft).
    assert (Hsame : time_accumulator s - 0 * dt s == time_accumulator s) by ring.
    rewrite Hsame. exact Hge.
  - unfold fixed_step in Hstep. destruct (Htotal (dt s) s) as [s0 Hs0].
    rewrite Hs0 in Hstep. discriminate.
Qed.

(** C10: with less than a step in the accumulator, [simulate(0)] terminates
    without a fixed step: [t], [steps_taken], the accumulator and the
    center, rotation and [previous] of every body are as before, and the
    bodies of the scene are drawn anew with [blend_state(time_accumulator /
    dt)].  With a full step in the accumulator and an [update_state] that
    returns, [simulate(0)] never leaves its loop, which subtracts
    [Math.sign(0) * dt] = 0. *)
Theorem simulate_zero {lib : Library} {methods : Methods} (s : Simulation) :
  (Qabs (time_accumulator s) < dt s ->
   returns_with (fun fuel => simulate fuel 0 s)
     (fun s' => t s' = t s /\ steps_taken s' = steps_taken s /\
                time_accumulator s' == time_accumulator s /\
                bodies s' = bodies s /\
                redrawn_only (time_accumulator s / dt s) s s')) /\
  (hook_ok -> hook_total -> dt s <= Qabs (time_accumulator s) ->
   forall fuel, simulate fuel 0 s = OutOfFuel).
Proof.
  assert (Hsc : scaled 0 s == 0) by (unfold scaled; ring).
  destruct (min_clamp (scaled 0 s)) as (_ & _ & Hsmall & _).
  assert (Hmin : JS.Math_min (scaled 0 s) 0.1 == 0) by (rewrite Hsmall by lra; exact Hsc).
  assert (Hacc1 : time_accumulator (accumulate (scaled 0 s) s) == time_accumulator s).
  { fields. rewrite Hmin. ring. }
  split.
  - intros Habs.
    assert (Hcond : JS.ge (JS.Math_abs (time_accumulator (accumulate (scaled 0 s) s)))
                          (dt (accumulate (scaled 0 s) s)) = false).
    { apply ge_false. unfold JS.Math_abs. rewrite Hacc1. exact Habs. }
    split.
    + exists 1%nat. intros [| fuel] Hfuel; [lia |].
      unfold simulate. cbn [simulate_loop]. rewrite Hcond. discriminate.
    + intros [| fuel] s' Hrun; [discriminate |].
      unfold simulate in Hrun. cbn [simulate_loop] in Hrun. rewrite Hcond in Hrun.
      injection Hrun as <-.
      split; [reflexivity |]. split; [reflexivity |]. split; [exact Hacc1 |].
      split; [reflexivity |].
      assert (Halpha : alpha (accumulate (scaled 0 s) s) == time_accumulator s / dt s).
      { unfold alpha. rewrite Hacc1. reflexivity. }
      intros r. rewrite blend_bodies_lookup. fields.
      destruct (heap s !! r) as [b |]; destruct (decide (r ∈ bodies s)) as [Hin | Hout];
        cbn [fmap option_fmap option_map]; try reflexivity.
      * exists (blend_state (alpha (accumulate (scaled 0 s) s)) b).
        repeat (split; [reflexivity |]).
        split; [intros _; apply blend_state_alpha; exact Halpha | contradiction].
      * exists b. repeat (split; [reflexivity |]).
        split; [contradiction | reflexivity].
  - intros hook Htotal Hge fuel. unfold simulate.
    rewrite (simulate_loop_spins hook Htotal (scaled 0 s) fuel Hsc); [reflexivity |].
    unfold JS.Math_abs in *. rewrite Hacc1. exact Hge.
Qed.

Lemma simulate_zero_witness :
  Qabs (time_accumulator one_body) < dt one_body /\
  returns_with (fun fuel => simulate (lib := still_library) (methods := falling)
                              fuel 0 one_body)
    (fun s' => t s' = t one_body /\ steps_taken s' = steps_taken one_body /\
               time_accumulator s' == time_accumulator one_body /\
               bodies s' = bodies one_body /\
               redrawn_only (time_accumulator one_body / dt one_body) one_body s').
Proof.
  split; [reflexivity |].
  apply (proj1 (simulate_zero (lib := still_library) (methods := falling) one_body)).
  reflexivity.
Defined.

Lemma advance_spec_witness :
  Forall keeps_velocity
    [cache_inverse (lib := still_library); cache_inverse (lib := still_library)] /\
  center (advance_steps (lib := still_library)
            [cache_inverse (lib := still_library);
             cache_inverse (lib := still_library)] 0.05 glider)
    = Nat.iter 2 (fun c => plus c (times (linear_velocity glider) 0.05)) (center glider).
Proof.
  assert (Hkeep : Forall keeps_velocity
            [cache_inverse (lib := still_library); cache_inverse (lib := still_library)]).
  { repeat constructor. }
  split; [exact Hkeep |].
  apply (proj1 (proj2 (advance_spec (lib := still_library)
                         [cache_inverse (lib := still_library);
                          cache_inverse (lib := still_library)] 0.05 glider Hkeep))).
Defined.

(** ** More on the time keeping *)




(** X5: a [Simulation] of the base class, whose [update_state] throws, runs
    every frame that leaves less than a step in the accumulator: the frame
    returns with the accumulator raised and the bodies blended, and nothing
    is thrown as long as no fixed step is due. *)
Theorem prototype_runs_short_frames {lib : Library} (fuel : nat) (frame_time : Q)
    (s : Simulation) :
  Qabs (time_accumulator (accumulate (scaled frame_time s) s)) < dt s ->
  simulate (methods := Simulation_prototype) (S fuel) frame_time s
  = Normal (blend_bodies (accumulate (scaled frame_time s) s)).
Proof.
  intros Hlt. unfold simulate. cbn [simulate_loop].
  assert (Hcond : JS.ge (JS.Math_abs (time_accumulator (accumulate (scaled frame_time s) s)))
                        (dt (accumulate (scaled frame_time s) s)) = false).
  { apply ge_false. exact Hlt. }
  rewrite Hcond. reflexivity.
Qed.

Lemma prototype_runs_short_frames_witness :
  Qabs (time_accumulator (accumulate (scaled 0.03 one_body) one_body)) < dt one_body /\
  simulate (lib := still_library) (methods := Simulation_prototype) 1 0.03 one_body
  = Normal (blend_bodies (accumulate (scaled 0.03 one_body) one_body)).
Proof.
  split; [reflexivity |].
  apply (prototype_runs_short_frames (lib := still_library) 0 0.03 one_body). reflexivity.
Defined.

(** ** More on bodies *)

Lemma lt_true (x y : Q) : JS.lt x y = true <-> x < y.
Proof.
  unfold JS.lt. rewrite negb_true_iff. split; intros Hxy.
  - apply Qnot_le_lt. intros Hle. apply Qle_bool_iff in Hle. congruence.
  - destruct (Qle_bool y x) eqn:E; [| reflexivity]. apply Qle_bool_iff in E. lra.
Qed.

Lemma square_bound (v m : Q) : 0 <= m -> v * v < 1 + m -> -1 - m <= v /\ v <= 1 + m.
Proof.
  intros Hm Hv.
  assert (Hsq : 1 + m <= (1 + m) * (1 + m)) by nra.
  split.
  - destruct (Qlt_le_dec v (-1 - m)) as [Hlt | Hle]; [| exact Hle]. exfalso. nra.
  - destruct (Qlt_le_dec (1 + m) v) as [Hlt | Hle]; [| exact Hle]. exfalso. nra.
Qed.

(** X6: with a margin that is not negative, a point that passes
    [intersect_sphere] passes [intersect_cube] with the same margin: the
    sphere test is the stricter one. *)
Theorem sphere_inside_cube (p : Vector3) (margin : Q) :
  0 <= margin -> intersect_sphere p margin = true -> intersect_cube p margin = true.
Proof.
  intros Hm Hs. unfold intersect_sphere in Hs. apply lt_true in Hs. unfold dot in Hs.
  unfold intersect_cube, every, components. cbn [forallb].
  rewrite !andb_true_iff, !ge_true, !le_true.
  pose proof (Qle_refl 0) as H0.
  assert (Hx : x3 p * x3 p < 1 + margin) by nra.
  assert (Hy : y3 p * y3 p < 1 + margin) by nra.
  assert (Hz : z3 p * z3 p < 1 + margin) by nra.
  pose proof (square_bound _ _ Hm Hx). pose proof (square_bound _ _ Hm Hy).
  pose proof (square_bound _ _ Hm Hz). tauto.
Qed.

Lemma sphere_inside_cube_witness :
  0 <= 0.1 /\ intersect_sphere (vec3 0.5 0.5 0.5) 0.1 = true /\
  intersect_cube (vec3 0.5 0.5 0.5) 0.1 = true.
Proof.
  split; [vm_compute; discriminate |]. split; [reflexivity |].
  apply (sphere_inside_cube (vec3 0.5 0.5 0.5) 0.1); [vm_compute; discriminate | reflexivity].
Defined.

(** X7: both intersection tests are monotone in the margin: a point inside
    with one margin is inside with every larger margin. *)
Theorem intersection_grows_with_margin (p : Vector3) (margin margin' : Q) :
  margin <= margin' ->
  (intersect_cube p margin = true -> intersect_cube p margin' = true) /\
  (intersect_sphere p margin = true -> intersect_sphere p margin' = true).
Proof.
  intros Hm. split.
  - unfold intersect_cube, every, components. cbn [forallb].
    rewrite !andb_true_iff, !ge_true, !le_true. intros H. repeat split; lra.
  - unfold intersect_sphere. rewrite !lt_true. lra.
Qed.

Lemma intersection_grows_with_margin_witness :
  0 <= 0.1 /\
  (intersect_cube (vec3 1 1 1) 0 = true -> intersect_cube (vec3 1 1 1) 0.1 = true) /\
  (intersect_sphere (vec3 1 1 1) 0 = true -> intersect_sphere (vec3 1 1 1) 0.1 = true).
Proof.
  split; [vm_compute; discriminate |].
  apply (intersection_grows_with_margin (vec3 1 1 1) 0 0.1). vm_compute; discriminate.
Defined.

Ltac body_entries :=
  cbv [meq veq4 veq emplace advance set_motion blend_state blend_rotation
       set_drawn_location drawn_location center rotation previous p_center p_rotation
       size linear_velocity
       mtimes mtimes_vec row_times dot4 dot col0 col1 col2 col3 map_rows mix4 mix
       plus times to3 to4 spread translation scale identity row
       row0 row1 row2 row3 x4 y4 z4 w4 x3 y3 z3];
  repeat split.


(** X10: after [advance(time_amount)], blending with [alpha] = 0 draws the
    body where it was before the step, and blending with [alpha] = 1 draws
    it where the step has put it. *)
Theorem blend_after_advance {lib : Library} (time_amount : Q) (b : Body) :
  let b' := advance time_amount b in
  meq (drawn_location (blend_state 0 b'))
      (mtimes (mtimes (translation (x3 (center b)) (y3 (center b)) (z3 (center b)))
                      (rotation b))
              (scale (x3 (size b)) (y3 (size b)) (z3 (size b)))) /\
  meq (drawn_location (blend_state 1 b'))
      (mtimes (mtimes (translation (x3 (center b')) (y3 (center b')) (z3 (center b')))
                      (rotation b'))
              (scale (x3 (size b)) (y3 (size b)) (z3 (size b)))).
Proof. cbv zeta. split; body_entries; ring. Qed.

(** What [check_if_colliding] does to the store. *)
Lemma check_if_colliding_store (h h' : store) (this b : ref) (collider : Collider)
    (colliding : bool) :
  check_if_colliding h this b collider = Normal (colliding, h') ->
  forall r : ref,
    match h !! r with
    | None => h' !! r = None
    | Some a =>
        exists a', h' !! r = Some a' /\ set_temp_matrix a' (temp_matrix a) = a /\
                   (r <> this -> a' = a)
    end.
Proof.
  unfold check_if_colliding. intros Hrun r.
  assert (Hsame : h' = h -> match h !! r with
                            | None => h' !! r = None
                            | Some a => exists a', h' !! r = Some a' /\
                                          set_temp_matrix a' (temp_matrix a) = a /\
                                          (r <> this -> a' = a)
                            end).
  { intros ->. destruct (h !! r) as [a |]; [| reflexivity].
    exists a. split; [reflexivity |]. split; [destruct a; reflexivity | reflexivity]. }
  destruct (decide (this = b)); [injection Hrun as _ <-; apply Hsame; reflexivity |].
  destruct (h !! this) as [a |] eqn:Ha; [| discriminate].
  destruct (h !! b) as [other |]; [| discriminate].
  destruct (inverse a) as [a_inv |]; [| discriminate].
  injection Hrun as _ <-.
  destruct (decide (r = this)) as [-> | Hne].
  - rewrite Ha, lookup_insert_eq. eexists. split; [reflexivity |].
    split; [destruct a; reflexivity | contradiction].
  - rewrite lookup_insert_ne by congruence.
    destruct (h !! r) as [a0 |]; [| reflexivity].
    exists a0. split; [reflexivity |]. split; [destruct a0; reflexivity | reflexivity].
Qed.

(** X11: [check_if_colliding] writes nothing but the [temp_matrix] of the
    receiver: every object of the store is, but for that field, as it was,
    and no object is added or removed. *)
Theorem check_if_colliding_writes_temp_matrix (h h' : store) (this b : ref)
    (collider : Collider) (colliding : bool) :
  check_if_colliding h this b collider = Normal (colliding, h') ->
  forall r : ref,
    match h !! r with
    | None => h' !! r = None
    | Some a =>
        exists a', h' !! r = Some a' /\ set_temp_matrix a' (temp_matrix a) = a /\
                   (r <> this -> a' = a)
    end.
Proof. apply check_if_colliding_store. Qed.

Lemma check_if_colliding_writes_temp_matrix_witness :
  exists (colliding : bool) (h' : store),
    check_if_colliding two_bodies 0%nat 1%nat cube_collider = Normal (colliding, h') /\
    forall r : ref,
      match two_bodies !! r with
      | None => h' !! r = None
      | Some a =>
          exists a', h' !! r = Some a' /\ set_temp_matrix a' (temp_matrix a) = a /\
                     (r <> 0%nat -> a' = a)
      end.
Proof.
  destruct (check_if_colliding two_bodies 0%nat 1%nat cube_collider)
    as [[colliding h'] | e | ] eqn:E; [| vm_compute in E; discriminate ..].
  exists colliding, h'. split; [reflexivity |].
  apply (check_if_colliding_writes_temp_matrix two_bodies h' 0%nat 1%nat cube_collider
           colliding E).
Defined.

(** X12: asked about another body before its inverse has been cached, a
    body throws a [TypeError]: [check_if_colliding] reads [this.inverse],
    which [emplace] does not set. *)
Theorem check_if_colliding_needs_inverse (h : store) (this b : ref) (collider : Collider)
    (a other : Body) :
  this <> b -> h !! this = Some a -> h !! b = Some other -> inverse a = None ->
  check_if_colliding h this b collider = Thrown "TypeError".
Proof.
  intros Hne Ha Hother Hinv. unfold check_if_colliding.
  destruct (decide (this = b)); [contradiction |].
  rewrite Ha, Hother, Hinv. reflexivity.
Qed.

Lemma check_if_colliding_needs_inverse_witness :
  (1 <> 0)%nat /\ two_bodies !! 1%nat = Some rock /\
  two_bodies !! 0%nat = Some (cache_inverse (lib := still_library) glider) /\
  inverse rock = None /\
  check_if_colliding two_bodies 1%nat 0%nat cube_collider = Thrown "TypeError".
Proof.
  split; [lia |]. split; [reflexivity |]. split; [reflexivity |]. split; [reflexivity |].
  apply (check_if_colliding_needs_inverse two_bodies 1%nat 0%nat cube_collider rock
           (cache_inverse (lib := still_library) glider));
    [lia | reflexivity | reflexivity | reflexivity].
Defined.

(** ** The small methods of the scene *)

Lemma trunc_floor (x : Q) : 0 <= x -> JSInt.trunc x = Qfloor x.
Proof.
  destruct x as [n d]. unfold JSInt.trunc, Qfloor, Qle. simpl. intros Hn.
  apply Z.quot_div_nonneg; lia.
Qed.

Lemma rem_bounds (x y : Q) : 0 <= x -> 0 < y -> 0 <= JSInt.rem x y /\ JSInt.rem x y < y.
Proof.
  intros Hx Hy. unfold JSInt.rem.
  assert (Hq : 0 <= x / y) by (apply Qle_shift_div_l; lra).
  rewrite (trunc_floor _ Hq).
  pose proof (Qfloor_le (x / y)) as Hlo. pose proof (Qlt_floor (x / y)) as Hhi.
  rewrite inject_Z_plus in Hhi. change (inject_Z 1) with 1 in Hhi.
  assert (Hmul : x / y * y == x) by (field; lra).
  apply (Qmult_le_r _ _ y Hy) in Hlo. apply (Qmult_lt_r _ _ y Hy) in Hhi.
  rewrite Hmul in Hlo, Hhi. split; lra.
Qed.

(** X13: wherever "Change Light Position" puts the light, for the values
    that [Math.random()] yields, which are not negative, it lies in the box
    [[-20, 40) x [-10, 30) x [2, 5]], and the color of the light is
    untouched. *)
Theorem light_position_in_box (random1 random2 random3 : Q) (l : Sun.Light) :
  0 <= random1 -> 0 <= random2 -> 0 <= random3 ->
  let l' := Sun.change_light_position random1 random2 random3 l in
  (-20 <= Sun.x l' /\ Sun.x l' < 40) /\ (-10 <= Sun.y l' /\ Sun.y l' < 30) /\
  (2 <= Sun.z l' /\ Sun.z l' <= 5) /\
  Sun.r l' = Sun.r l /\ Sun.g l' = Sun.g l /\ Sun.b l' = Sun.b l.
Proof.
  intros H1 H2 H3. cbv zeta. unfold Sun.change_light_position.
  cbn [Sun.x Sun.y Sun.z Sun.r Sun.g Sun.b].
  assert (Hx : 0 <= random1 * 100) by lra.
  assert (Hy : 0 <= random2 * 100) by lra.
  assert (Hz : 0 <= random3 * 100) by lra.
  destruct (rem_bounds (random1 * 100) 60 Hx ltac:(reflexivity)).
  destruct (rem_bounds (random2 * 100) 40 Hy ltac:(reflexivity)).
  destruct (rem_bounds (random3 * 100) 3 Hz ltac:(reflexivity)).
  repeat split; lra.
Qed.

Lemma light_position_in_box_witness :
  0 <= 0.75 /\ 0 <= 0.5 /\ 0 <= 0.999 /\
  let l' := Sun.change_light_position 0.75 0.5 0.999
              (Sun.mkLight 0.917 0.792 0.949 36 21 0) in
  (-20 <= Sun.x l' /\ Sun.x l' < 40) /\ (-10 <= Sun.y l' /\ Sun.y l' < 30) /\
  (2 <= Sun.z l' /\ Sun.z l' <= 5) /\
  Sun.r l' = 0.917 /\ Sun.g l' = 0.792 /\ Sun.b l' = 0.949.
Proof.
  split; [vm_compute; discriminate |]. split; [vm_compute; discriminate |].
  split; [vm_compute; discriminate |].
  apply (light_position_in_box 0.75 0.5 0.999 (Sun.mkLight 0.917 0.792 0.949 36 21 0));
    vm_compute; discriminate.
Defined.

(** X14: [random_shape] never yields [undefined]: for a list of shapes that
    is not empty (and shorter than 2^31) and a value of [Math.random()] in
    [[0, 1)], it returns one of the shapes of the list. *)
Theorem random_shape_is_a_shape {A : Type} (shape_list : list A) (random : Q) :
  shape_list <> [] -> (Z.of_nat (length shape_list) < 2 ^ 31)%Z ->
  0 <= random -> random < 1 ->
  exists shape, random_shape shape_list random = Some shape /\ shape ∈ shape_list.
Proof.
  intros Hne Hlen H0 H1. unfold random_shape.
  set (n := Z.of_nat (length shape_list)) in *.
  assert (Hn : (0 < n)%Z) by (destruct shape_list; [contradiction | unfold n; simpl; lia]).
  assert (HnQ : 0 < inject_Z n) by (change 0 with (inject_Z 0); rewrite <- Zlt_Qlt; lia).
  assert (Hx0 : 0 <= inject_Z n * random) by (apply Qmult_le_0_compat; lra).
  assert (Hx1 : inject_Z n * random < inject_Z n) by nra.
  assert (Hfl0 : (0 <= Qfloor (inject_Z n * random))%Z).
  { rewrite <- (Qfloor_Z 0). apply Qfloor_resp_le. exact Hx0. }
  assert (Hfl1 : (Qfloor (inject_Z n * random) < n)%Z).
  { rewrite Zlt_Qlt. pose proof (Qfloor_le (inject_Z n * random)). lra. }
  unfold JSInt.to_int32. rewrite (trunc_floor _ Hx0).
  set (i := Qfloor (inject_Z n * random)) in *.
  rewrite (Z.mod_small (i + 2 ^ 31) (2 ^ 32)) by lia.
  replace (i + 2 ^ 31 - 2 ^ 31)%Z with i by lia.
  destruct (i <? 0)%Z eqn:Hneg; [apply Z.ltb_lt in Hneg; lia |].
  destruct (lookup_lt_is_Some_2 shape_list (Z.to_nat i)) as [shape Hshape];
    [unfold n in Hfl1; lia |].
  exists shape. split; [exact Hshape |]. apply (list_elem_of_lookup_2 _ _ _ Hshape).
Qed.

Lemma random_shape_is_a_shape_witness :
  [1%nat; 2%nat; 3%nat; 4%nat] <> [] /\
  (Z.of_nat (length [1%nat; 2%nat; 3%nat; 4%nat]) < 2 ^ 31)%Z /\
  0 <= 0.99 /\ 0.99 < 1 /\
  exists shape, random_shape [1%nat; 2%nat; 3%nat; 4%nat] 0.99 = Some shape /\
                shape ∈ [1%nat; 2%nat; 3%nat; 4%nat].
Proof.
  split; [discriminate |]. split; [reflexivity |].
  split; [vm_compute; discriminate |]. split; [reflexivity |].
  apply (random_shape_is_a_shape [1%nat; 2%nat; 3%nat; 4%nat] 0.99);
    [discriminate | reflexivity | vm_compute; discriminate | reflexivity].
Defined.

(** X15: [increase] and [decrease] keep the selection an index of
    [colliders], so a collider stays selected; [increase] stops at the last
    collider and [decrease] at the first, and below the last collider
    [decrease] undoes [increase]. *)
Theorem selection_stays_valid (g : Group) :
  (0 <= collider_selection g < Z.of_nat (length (colliders g)))%Z ->
  (0 <= collider_selection (increase g) < Z.of_nat (length (colliders g)))%Z /\
  (0 <= collider_selection (decrease g) < Z.of_nat (length (colliders g)))%Z /\
  is_Some (selected_collider (increase g)) /\ is_Some (selected_collider (decrease g)) /\
  (collider_selection g = (Z.of_nat (length (colliders g)) - 1)%Z ->
   collider_selection (increase g) = collider_selection g) /\
  (collider_selection g = 0%Z -> collider_selection (decrease g) = 0%Z) /\
  ((collider_selection g < Z.of_nat (length (colliders g)) - 1)%Z ->
   collider_selection (decrease (increase g)) = collider_selection g).
Proof.
  intros Hsel.
  assert (Hsome : forall n, (0 <= n < Z.of_nat (length (colliders g)))%Z ->
                    is_Some (selected_collider (set_collider_selection g n))).
  { intros n Hn. unfold selected_collider. cbn [collider_selection colliders set_collider_selection].
    destruct (n <? 0)%Z eqn:E; [apply Z.ltb_lt in E; lia |].
    apply lookup_lt_is_Some_2. lia. }
  unfold increase, decrease. cbn [collider_selection colliders set_collider_selection].
  repeat split; try lia; apply Hsome; lia.
Qed.

Lemma selection_stays_valid_witness :
  (0 <= collider_selection small_group
   < Z.of_nat (length (colliders small_group)))%Z /\
  is_Some (selected_collider (increase small_group)) /\
  is_Some (selected_collider (decrease small_group)).
Proof.
  split; [vm_compute; split; [discriminate | reflexivity] |].
  pose proof (selection_stays_valid small_group) as H.
  assert (Hsel : (0 <= collider_selection small_group
                  < Z.of_nat (length (colliders small_group)))%Z)
    by (vm_compute; split; [discriminate | reflexivity]).
  destruct (H Hsel) as (_ & _ & Hi & Hd & _). split; assumption.
Defined.

(** ** [update_state] of the scene *)

Lemma kept_refl (a : Body) : kept a a.
Proof. unfold kept. tauto. Qed.

Lemma kept_trans (a a' a'' : Body) : kept a a' -> kept a' a'' -> kept a a''.
Proof. unfold kept. intuition congruence. Qed.

Section UpdateState.
Context {lib : Library}.

Lemma settles_refl (h : store) : settles h h.
Proof.
  split; [| tauto]. intros r. destruct (h !! r) as [a |] eqn:E; [| exact I].
  exists a. split; [reflexivity |]. split; [apply kept_refl | tauto].
Qed.

Lemma settles_trans (h h' h'' : store) : settles h h' -> settles h' h'' -> settles h h''.
Proof.
  intros [H1 N1] [H2 N2]. split; [| auto]. intros r. specialize (H1 r).
  destruct (h !! r) as [a |]; [| exact I].
  destruct H1 as (a' & Ha' & Hk & Hc). specialize (H2 r). rewrite Ha' in H2.
  destruct H2 as (a'' & Ha'' & Hk' & Hc').
  exists a''. split; [exact Ha'' |]. split; [apply (kept_trans a a' a'' Hk Hk') | tauto].
Qed.

Lemma settles_insert (h : store) (r : ref) (a a1 : Body) :
  h !! r = Some a -> kept a a1 -> (cached a -> cached a1) -> settles h (<[r := a1]> h).
Proof.
  intros Ha Hk Hc. split.
  - intros r'. destruct (decide (r' = r)) as [-> | Hne].
    + rewrite Ha. exists a1. rewrite lookup_insert_eq. tauto.
    + destruct (h !! r') as [a' |] eqn:E; [| exact I].
      exists a'. rewrite lookup_insert_ne by congruence.
      split; [exact E |]. split; [apply kept_refl | tauto].
  - intros r' Hnone. rewrite lookup_insert_ne; [exact Hnone |].
    intros ->. congruence.
Qed.

Lemma settles_alter (h : store) (r : ref) (f : Body -> Body) :
  (forall a, kept a (f a) /\ (cached a -> cached (f a))) -> settles h (alter f r h).
Proof.
  intros Hf. split.
  - intros r'. destruct (h !! r') as [a |] eqn:E; [| exact I].
    destruct (decide (r' = r)) as [-> | Hne].
    + exists (f a). rewrite lookup_alter_eq, E. destruct (Hf a). tauto.
    + exists a. rewrite lookup_alter_ne by congruence.
      split; [exact E |]. split; [apply kept_refl | tauto].
  - intros r' Hnone. destruct (decide (r' = r)) as [-> | Hne].
    + rewrite lookup_alter_eq, Hnone. reflexivity.
    + rewrite lookup_alter_ne by congruence. exact Hnone.
Qed.

Lemma bounce_kept (factor : Q) (a : Body) :
  kept a (bounce factor a) /\ (cached a -> cached (bounce factor a)).
Proof. unfold kept, cached, bounce. cbn. tauto. Qed.

Lemma check_selected_settles (h h' : store) (this b : ref) (collider : option Collider)
    (colliding : bool) :
  check_selected h this b collider = Normal (colliding, h') -> settles h h'.
Proof.
  unfold check_selected. intros Hrun.
  destruct (decide (this = b)); [injection Hrun as _ <-; apply settles_refl |].
  destruct collider as [c |]; [| discriminate].
  pose proof (check_if_colliding_store h h' this b c colliding Hrun) as Hstore.
  split.
  - intros r. specialize (Hstore r). destruct (h !! r) as [a |]; [| exact I].
    destruct Hstore as (a' & Ha' & Hset & _). exists a'. split; [exact Ha' |].
    rewrite <- Hset. unfold kept, cached. cbn. tauto.
  - intros r Hnone. specialize (Hstore r). rewrite Hnone in Hstore. exact Hstore.
Qed.

Lemma check_selected_returns (h : store) (this b : ref) (c : Collider) (a : Body) :
  h !! this = Some a -> is_Some (inverse a) -> is_Some (h !! b) ->
  exists colliding h', check_selected h this b (Some c) = Normal (colliding, h').
Proof.
  intros Ha [a_inv Hinv] [other Hb]. unfold check_selected, check_if_colliding.
  destruct (decide (this = b)); [eauto |].
  rewrite Ha, Hb, Hinv. eauto.
Qed.

Lemma settles_cached (h h' : store) (r : ref) (a : Body) :
  settles h h' -> h !! r = Some a -> cached a -> exists a', h' !! r = Some a' /\ cached a'.
Proof.
  intros [H _] Ha Hc. specialize (H r). rewrite Ha in H.
  destruct H as (a' & Ha' & _ & Hc'). exists a'. tauto.
Qed.

Lemma body_step_settles (d : Q) (g : Group) (h h' : store) (r : ref) :
  body_step d g h r = Normal h' ->
  settles h h' /\ exists a', h' !! r = Some a' /\ cached a'.
Proof.
  unfold body_step. intros Hrun.
  destruct (h !! r) as [a |] eqn:Ha; [| discriminate].
  assert (Hstart : forall v, settles h (<[r := set_linear_velocity
                     (set_inverse a (Tiny.inverse (drawn_location a))) v]> h) /\
                   cached (set_linear_velocity
                     (set_inverse a (Tiny.inverse (drawn_location a))) v)).
  { intros v. split; [| reflexivity].
    apply settles_insert with (a := a); [exact Ha | | intros _; reflexivity].
    unfold kept. cbn. tauto. }
  assert (Hchain : forall v h1, settles (<[r := set_linear_velocity
                     (set_inverse a (Tiny.inverse (drawn_location a))) v]> h) h1 ->
                   settles h h1 /\ exists a', h1 !! r = Some a' /\ cached a').
  { intros v h1 H1. destruct (Hstart v) as [H0 Hc].
    split; [apply (settles_trans _ _ _ H0 H1) |].
    eapply settles_cached; [exact H1 | apply lookup_insert_eq | exact Hc]. }
  cbn [hit set_inverse linear_velocity user_projectile] in Hrun.
  destruct (hit a).
  - injection Hrun as <-. eapply Hchain. apply settles_refl.
  - apply bind_Normal in Hrun as ([c1 h2] & Hcheck1 & Hrun).
    apply check_selected_settles in Hcheck1.
    destruct c1.
    + injection Hrun as <-. eapply Hchain.
      apply (settles_trans _ _ _ Hcheck1). apply settles_alter. apply bounce_kept.
    + apply bind_Normal in Hrun as ([c2 h3] & Hcheck2 & Hrun).
      apply check_selected_settles in Hcheck2.
      pose proof (settles_trans _ _ _ Hcheck1 Hcheck2) as H13.
      destruct c2; injection Hrun as <-; eapply Hchain.
      * apply (settles_trans _ _ _ H13). apply settles_alter. apply bounce_kept.
      * exact H13.
Qed.

Lemma for_each_body_settles (d : Q) (g : Group) (l : list ref) :
  forall h h', for_each_body d g h l = Normal h' ->
  settles h h' /\ forall r, r ∈ l -> exists a', h' !! r = Some a' /\ cached a'.
Proof.
  induction l as [| r rest IH]; intros h h' Hrun.
  - injection Hrun as <-. split; [apply settles_refl |].
    intros r Hin. apply elem_of_nil in Hin. contradiction.
  - cbn [for_each_body] in Hrun. apply bind_Normal in Hrun as (h1 & Hstep & Hrest).
    destruct (body_step_settles d g h h1 r Hstep) as [H01 (a1 & Ha1 & Hc1)].
    destruct (IH h1 h' Hrest) as [H1 Hall].
    split; [apply (settles_trans _ _ _ H01 H1) |].
    intros r' Hin. apply elem_of_cons in Hin as [-> | Hin]; [| apply Hall; exact Hin].
    eapply settles_cached; [exact H1 | exact Ha1 | exact Hc1].
Qed.

Lemma settles_is_Some (h h' : store) (r : ref) :
  settles h h' -> is_Some (h !! r) -> is_Some (h' !! r).
Proof.
  intros [H _] [a Ha]. specialize (H r). rewrite Ha in H.
  destruct H as (a' & Ha' & _). eauto.
Qed.

Lemma body_step_returns (d : Q) (g : Group) (h : store) (r : ref) :
  is_Some (h !! r) -> is_Some (h !! opm g) -> is_Some (h !! pillars g) ->
  is_Some (selected_collider g) ->
  exists h', body_step d g h r = Normal h'.
Proof.
  intros [a Ha] Hopm Hpillars [c Hc]. unfold body_step. rewrite Ha, Hc.
  cbn [hit set_inverse linear_velocity user_projectile].
  destruct (hit a); [eauto |].
  set (a1 := set_linear_velocity _ _).
  assert (Hinv : is_Some (inverse a1)) by (unfold a1; cbn; eauto).
  assert (Hr1 : <[r := a1]> h !! r = Some a1) by apply lookup_insert_eq.
  assert (Hopm1 : is_Some (<[r := a1]> h !! opm g)).
  { destruct (decide (opm g = r)) as [-> | Hne]; [rewrite Hr1; eauto |].
    rewrite lookup_insert_ne by congruence. exact Hopm. }
  assert (Hpillars1 : is_Some (<[r := a1]> h !! pillars g)).
  { destruct (decide (pillars g = r)) as [-> | Hne]; [rewrite Hr1; eauto |].
    rewrite lookup_insert_ne by congruence. exact Hpillars. }
  destruct (check_selected_returns _ r (opm g) c a1 Hr1 Hinv Hopm1)
    as (c1 & h2 & Hcheck1).
  rewrite Hcheck1. cbn. destruct c1; [eauto |].
  pose proof (check_selected_settles _ _ _ _ _ _ Hcheck1) as H12.
  pose proof (proj1 H12 r) as Hr2. rewrite Hr1 in Hr2.
  destruct Hr2 as (a2 & Ha2 & _ & Hc2).
  assert (Hinv2 : is_Some (inverse a2)).
  { unfold cached in Hc2. rewrite Hc2 by reflexivity. eauto. }
  destruct (check_selected_returns h2 r (pillars g) c a2 Ha2 Hinv2
              (settles_is_Some _ _ _ H12 Hpillars1)) as (c2 & h3 & Hcheck2).
  rewrite Hcheck2. cbn. destruct c2; eauto.
Qed.

Lemma for_each_body_returns (d : Q) (g : Group) (l : list ref) :
  forall h, (forall r, r ∈ l -> is_Some (h !! r)) ->
  is_Some (h !! opm g) -> is_Some (h !! pillars g) -> is_Some (selected_collider g) ->
  exists h', for_each_body d g h l = Normal h'.
Proof.
  induction l as [| r rest IH]; intros h Hl Hopm Hpillars Hc; [cbn; eauto |].
  cbn [for_each_body].
  destruct (body_step_returns d g h r (Hl r ltac:(left)) Hopm Hpillars Hc) as [h1 Hstep].
  rewrite Hstep. cbn.
  destruct (body_step_settles d g h h1 r Hstep) as [H01 _].
  apply IH; [| apply (settles_is_Some _ _ _ H01 Hopm)
             | apply (settles_is_Some _ _ _ H01 Hpillars) | exact Hc].
  intros r' Hin. apply (settles_is_Some _ _ _ H01). apply Hl. right. exact Hin.
Qed.
End UpdateState.

Section GroupUpdateState.
Context {lib : Library}.

Lemma Group_update_state_inv (d : Q) (draws : Draws) (g g' : Group) :
  Group_update_state d draws g = Normal g' ->
  exists (s0 : Simulation) (h' : store),
    (s0 = super g \/
     Z.rem (counter g + 1) 8 = 0%Z /\
     s0 = set_bodies (set_heap (super g)
                        (<[fresh (dom (heap (super g))) := spawn draws]> (heap (super g))))
                     (bodies (super g) ++ [fresh (dom (heap (super g)))])) /\
    for_each_body d (set_counter g (counter g + 1)) (heap s0) (bodies s0) = Normal h' /\
    g' = set_super (set_counter g (counter g + 1))
           (set_bodies (set_heap s0 h')
                       (filter (fun r => in_bounds h' r = true) (bodies s0))).
Proof.
  unfold Group_update_state. cbn [counter set_counter super]. intros Hrun.
  destruct (Z.rem (counter g + 1) 8 =? 0)%Z eqn:Hrem;
    apply bind_Normal in Hrun as (h' & Hloop & Hg'); injection Hg' as <-.
  - apply Z.eqb_eq in Hrem. eexists _, h'. split; [right; split; [exact Hrem | reflexivity] |].
    split; [exact Hloop | reflexivity].
  - exists (super g), h'. split; [left; reflexivity |]. split; [exact Hloop | reflexivity].
Qed.

Lemma fresh_is_new (h : store) : h !! fresh (dom h) = None.
Proof. apply not_elem_of_dom. apply is_fresh. Qed.

Lemma spawn_evolves (h : store) (a : Body) : evolves h (<[fresh (dom h) := a]> h).
Proof.
  intros r. destruct (h !! r) as [b |] eqn:E; [| exact I].
  exists b. rewrite lookup_insert_ne.
  - split; [exact E |]. split; [apply kept_refl | tauto].
  - intros Heq. rewrite <- Heq, fresh_is_new in E. discriminate.
Qed.

Lemma evolves_settles (h h' h'' : store) : evolves h h' -> settles h' h'' -> evolves h h''.
Proof.
  intros H1 [H2 _] r. specialize (H1 r). destruct (h !! r) as [a |]; [| exact I].
  destruct H1 as (a' & Ha' & Hk & Hc). specialize (H2 r). rewrite Ha' in H2.
  destruct H2 as (a'' & Ha'' & Hk' & Hc').
  exists a''. split; [exact Ha'' |]. split; [apply (kept_trans a a' a'' Hk Hk') | tauto].
Qed.
End GroupUpdateState.

(** X16: [update_state] of the scene leaves the time keeping of the
    [Simulation] alone, as [simulate] needs it: the accumulator, [dt],
    [time_scale], [t] and [steps_taken] are as before, and so are the
    colliders, the selection and the two fixed bodies; the counter of calls
    goes up by one. *)
Theorem Group_update_state_keeps_time {lib : Library} (d : Q) (draws : Draws)
    (g g' : Group) :
  Group_update_state d draws g = Normal g' ->
  time_accumulator (super g') = time_accumulator (super g) /\
  dt (super g') = dt (super g) /\ time_scale (super g') = time_scale (super g) /\
  t (super g') = t (super g) /\ steps_taken (super g') = steps_taken (super g) /\
  colliders g' = colliders g /\ collider_selection g' = collider_selection g /\
  opm g' = opm g /\ pillars g' = pillars g /\ counter g' = (counter g + 1)%Z.
Proof.
  intros Hrun.
  destruct (Group_update_state_inv d draws g g' Hrun) as (s0 & h' & [-> | [_ ->]] & _ & ->);
    repeat split.
Qed.

(** X17: [update_state] of the scene moves no body and removes no object:
    every object of the store is still there, with its size, center,
    rotation, [previous], [drawn_location] and spin, and hit if it was hit;
    an object is added to the store on every eighth call only, and that
    object is the spawned body. *)
Theorem Group_update_state_keeps_bodies {lib : Library} (d : Q) (draws : Draws)
    (g g' : Group) :
  Group_update_state d draws g = Normal g' ->
  (forall (r : ref) (a : Body), heap (super g) !! r = Some a ->
     exists a', heap (super g') !! r = Some a' /\ kept a a') /\
  (forall r : ref, heap (super g) !! r = None ->
     heap (super g') !! r = None \/
     Z.rem (counter g + 1) 8 = 0%Z /\ r = fresh (dom (heap (super g))) /\
     exists a', heap (super g') !! r = Some a' /\ kept (spawn draws) a').
Proof.
  intros Hrun.
  destruct (Group_update_state_inv d draws g g' Hrun)
    as (s0 & h' & Hs0 & Hloop & ->).
  destruct (for_each_body_settles d _ _ _ _ Hloop) as [[Hev Hnone] _].
  cbn [super set_super heap set_heap set_bodies].
  destruct Hs0 as [-> | [Hrem ->]]; cbn [heap set_heap set_bodies] in Hev, Hnone.
  - split.
    + intros r a Ha. specialize (Hev r). rewrite Ha in Hev.
      destruct Hev as (a' & Ha' & Hk & _). eauto.
    + intros r Hr. left. apply Hnone. exact Hr.
  - split.
    + intros r a Ha.
      pose proof (evolves_settles _ _ _ (spawn_evolves (heap (super g)) (spawn draws))
                    (conj Hev Hnone) r) as H.
      rewrite Ha in H. destruct H as (a' & Ha' & Hk & _). eauto.
    + intros r Hr. destruct (decide (r = fresh (dom (heap (super g))))) as [-> | Hne].
      * right. split; [exact Hrem |]. split; [reflexivity |].
        specialize (Hev (fresh (dom (heap (super g))))).
        rewrite lookup_insert_eq in Hev. destruct Hev as (a' & Ha' & Hk & _). eauto.
      * left. apply Hnone.
        rewrite lookup_insert_ne by (intros Heq; apply Hne; symmetry; exact Heq).
        exact Hr.
Qed.

(** X18: after [update_state] of the scene, every body of [bodies] was a
    body before or is the body spawned on this eighth call, lies above -50
    on the first two axes, and has the inverse of its [drawn_location]
    cached, which is what [check_if_colliding] reads. *)
Theorem Group_update_state_bodies {lib : Library} (d : Q) (draws : Draws)
    (g g' : Group) :
  Group_update_state d draws g = Normal g' ->
  forall r : ref, r ∈ bodies (super g') ->
    (r ∈ bodies (super g) \/
     Z.rem (counter g + 1) 8 = 0%Z /\ r = fresh (dom (heap (super g)))) /\
    exists a, heap (super g') !! r = Some a /\
      -50 < x3 (center a) /\ -50 < y3 (center a) /\ cached a.
Proof.
  intros Hrun r Hin.
  destruct (Group_update_state_inv d draws g g' Hrun)
    as (s0 & h' & Hs0 & Hloop & ->).
  destruct (for_each_body_settles d _ _ _ _ Hloop) as [_ Hcached].
  cbn [super set_super heap set_heap bodies set_bodies] in Hin |- *.
  apply list_elem_of_filter in Hin as [Hbounds Hin0].
  split.
  - destruct Hs0 as [-> | [Hrem ->]]; [left; exact Hin0 |].
    cbn [bodies set_bodies] in Hin0. apply elem_of_app in Hin0 as [Hold | Hnew].
    + left. exact Hold.
    + right. apply list_elem_of_singleton in Hnew. tauto.
  - destruct (Hcached r Hin0) as (a & Ha & Hc). exists a. split; [exact Ha |].
    unfold in_bounds in Hbounds. rewrite Ha in Hbounds.
    apply andb_true_iff in Hbounds as [Hx Hy].
    apply lt_true in Hx, Hy. tauto.
Qed.

(** X19: in a scene whose references lead to objects and whose selection
    is an index of [colliders], [update_state] returns, it does not throw,
    and the scene it leaves is of the same kind. *)
Theorem Group_update_state_returns {lib : Library} (d : Q) (draws : Draws) (g : Group) :
  well_formed g ->
  exists g', Group_update_state d draws g = Normal g' /\ well_formed g'.
Proof.
  intros (Hbodies & Hopm & Hpillars & Hc).
  set (g1 := set_counter g (counter g + 1)).
  assert (Hloop : forall s0, evolves (heap (super g)) (heap s0) ->
            (forall r : ref, r ∈ bodies s0 -> is_Some (heap s0 !! r)) ->
            exists h', for_each_body d g1 (heap s0) (bodies s0) = Normal h' /\
              well_formed (set_super g1
                 (set_bodies (set_heap s0 h')
                    (filter (fun r => in_bounds h' r = true) (bodies s0))))).
  { intros s0 Hev Hin.
    assert (Hsome : forall r : ref, is_Some (heap (super g) !! r) -> is_Some (heap s0 !! r)).
    { intros r [a Ha]. specialize (Hev r). rewrite Ha in Hev.
      destruct Hev as (a' & Ha' & _). eauto. }
    destruct (for_each_body_returns d g1 (bodies s0) (heap s0) Hin
                (Hsome _ Hopm) (Hsome _ Hpillars) Hc) as [h' Hh'].
    exists h'. split; [exact Hh' |].
    destruct (for_each_body_settles d _ _ _ _ Hh') as [Hset _].
    unfold well_formed. cbn [super set_super heap set_heap bodies set_bodies opm pillars
                               set_counter].
    split; [| split; [| split]].
    - intros r Hr. apply list_elem_of_filter in Hr as [Hb _].
      unfold in_bounds in Hb. destruct (h' !! r); [eauto | discriminate].
    - apply (settles_is_Some _ _ _ Hset). apply Hsome. exact Hopm.
    - apply (settles_is_Some _ _ _ Hset). apply Hsome. exact Hpillars.
    - exact Hc. }
  assert (Hrun : forall s0, 
            (exists h', for_each_body d g1 (heap s0) (bodies s0) = Normal h' /\
               well_formed (set_super g1
                 (set_bodies (set_heap s0 h')
                    (filter (fun r => in_bounds h' r = true) (bodies s0))))) ->
            exists g', (h ← for_each_body d g1 (heap s0) (bodies s0);
                        Normal (set_super g1
                          (set_bodies (set_heap s0 h)
                             (filter (fun r => in_bounds h r = true) (bodies s0)))))
                       = Normal g' /\ well_formed g').
  { intros s0 (h' & Hh' & Hwf). rewrite Hh'. cbn. eauto. }
  unfold Group_update_state.
  destruct (Z.rem (counter (set_counter g (counter g + 1))) 8 =? 0)%Z;
    [refine (Hrun (set_bodies
                     (set_heap (super g)
                        (<[fresh (dom (heap (super g))) := spawn draws]> (heap (super g))))
                     (bodies (super g) ++ [fresh (dom (heap (super g)))])) _)
    | refine (Hrun (super g) _)];
    apply Hloop.
  - apply spawn_evolves.
  - cbn [heap set_heap bodies set_bodies]. intros r Hr.
    apply elem_of_app in Hr as [Hold | Hnew].
    + destruct (Hbodies r Hold) as [a Ha].
      pose proof (spawn_evolves (heap (super g)) (spawn draws) r) as H.
      rewrite Ha in H. destruct H as (a' & Ha' & _). eauto.
    + apply list_elem_of_singleton in Hnew. subst r. rewrite lookup_insert_eq. eauto.
  - intros r. destruct (heap (super g) !! r) as [a |] eqn:E; [| exact I].
    exists a. split; [reflexivity |]. split; [apply kept_refl | tauto].
  - exact Hbodies.
Qed.

Lemma small_group_well_formed : well_formed small_group.
Proof.
  unfold well_formed. split; [| split; [| split]]; try (eexists; reflexivity).
  intros r Hr. apply list_elem_of_singleton in Hr. subst r. eexists. reflexivity.
Qed.

Lemma Group_update_state_keeps_time_witness :
  exists g',
    Group_update_state (lib := still_library) 0.05 some_draws small_group = Normal g' /\
    time_accumulator (super g') = time_accumulator (super small_group) /\
    dt (super g') = dt (super small_group) /\
    time_scale (super g') = time_scale (super small_group) /\
    t (super g') = t (super small_group) /\
    steps_taken (super g') = steps_taken (super small_group) /\
    colliders g' = colliders small_group /\
    collider_selection g' = collider_selection small_group /\
    opm g' = opm small_group /\ pillars g' = pillars small_group /\
    counter g' = (counter small_group + 1)%Z.
Proof.
  destruct (Group_update_state (lib := still_library) 0.05 some_draws small_group)
    as [g' | e | ] eqn:E; [| vm_compute in E; discriminate ..].
  exists g'. split; [reflexivity |].
  apply (Group_update_state_keeps_time (lib := still_library) 0.05 some_draws
           small_group g' E).
Defined.

Lemma Group_update_state_keeps_bodies_witness :
  exists g',
    Group_update_state (lib := still_library) 0.05 some_draws small_group = Normal g' /\
    (forall (r : ref) (a : Body), heap (super small_group) !! r = Some a ->
       exists a', heap (super g') !! r = Some a' /\ kept a a') /\
    (forall r : ref, heap (super small_group) !! r = None ->
       heap (super g') !! r = None \/
       Z.rem (counter small_group + 1) 8 = 0%Z /\
       r = fresh (dom (heap (super small_group))) /\
       exists a', heap (super g') !! r = Some a' /\
                  kept (spawn some_draws) a').
Proof.
  destruct (Group_update_state (lib := still_library) 0.05 some_draws small_group)
    as [g' | e | ] eqn:E; [| vm_compute in E; discriminate ..].
  exists g'. split; [reflexivity |].
  apply (Group_update_state_keeps_bodies (lib := still_library) 0.05 some_draws
           small_group g' E).
Defined.

Lemma Group_update_state_bodies_witness :
  exists g',
    Group_update_state (lib := still_library) 0.05 some_draws small_group = Normal g' /\
    forall r : ref, r ∈ bodies (super g') ->
      (r ∈ bodies (super small_group) \/
       Z.rem (counter small_group + 1) 8 = 0%Z /\
       r = fresh (dom (heap (super small_group)))) /\
      exists a, heap (super g') !! r = Some a /\
        -50 < x3 (center a) /\ -50 < y3 (center a) /\ cached (lib := still_library) a.
Proof.
  destruct (Group_update_state (lib := still_library) 0.05 some_draws small_group)
    as [g' | e | ] eqn:E; [| vm_compute in E; discriminate ..].
  exists g'. split; [reflexivity |].
  apply (Group_update_state_bodies (lib := still_library) 0.05 some_draws
           small_group g' E).
Defined.

Lemma Group_update_state_returns_witness :
  well_formed small_group /\
  exists g',
    Group_update_state (lib := still_library) 0.05 some_draws small_group = Normal g' /\
    well_formed g'.
Proof.
  split; [exact small_group_well_formed |].
  apply (Group_update_state_returns (lib := still_library) 0.05 some_draws small_group).
  exact small_group_well_formed.
Defined.
